(** * The persisted history store and the upload-then-infer pipeline

    A shallow embedding of [src/lib/utils] (the validators and the three
    store operations [saveToStorage], [getFromStorage], [removeFromStorage]),
    of [src/lib/upload.tsx] ([uploadImage]) and of the two page
    orchestrators ([processImage] with [detectAge], [captureScreenshot]),
    with the handlers of the two pages that choose a file, reset the
    page and delete an entry, and the code that orders and labels what
    is shown.

    JavaScript values are modelled as JSON data, [undefined] as [None];
    exceptions and the mutable browser state are threaded through a small
    state-and-exception monad. What the browser and the libraries provide
    (JSON, zod's string formats, the storage quota, string coercion) is the
    class [Host], what is assumed of it is the class [HostLaws]; a
    concrete instance that meets these laws is built in [Module Demo]. *)

From Stdlib Require Import ZArith String Ascii List Decimal DecimalZ DecimalPos Lia
  Sorted.
From stdpp Require Import base option list gmap strings pretty.

Open Scope string_scope.
Open Scope Z_scope.

(** ** JavaScript values *)

(** A number is a decimal [mantissa * 10 ^ exponent] or an infinity; the
    code under study never computes with numbers, it only passes them on,
    validates them and tests them for truthiness. The infinities are what
    [JSON.parse] and [response.json()] make of a literal too large for a
    double, such as [1e400]. [NaN], which they never return, is not a
    value of this model, and zero has no sign in it: [===] does not tell
    [-0] from [0] either. *)
Inductive number :=
| Number (mantissa exponent : Z)
| Infinity (negative : bool).

(** The decimals that a double holds as a finite number: those of a
    magnitude below [2^1024 - 2^970], from where on rounding to the
    nearest double gives an infinity. A decimal beyond that bound is
    treated as the infinity it is read as. *)
Definition double_limit : Z := 2 ^ 1024 - 2 ^ 970.

Definition finite_number (n : number) : bool :=
  match n with
  | Number m e =>
      if Z.leb 0 e then Z.ltb (Z.abs m * 10 ^ e) double_limit
      else Z.ltb (Z.abs m) (double_limit * 10 ^ (- e))
  | Infinity _ => false
  end.

#[local] Unset Elimination Schemes.
Inductive value : Type :=
| VNull
| VBool (b : bool)
| VNum (n : number)
| VStr (s : string)
| VArr (items : list value)
| VObj (props : list (string * value)).
#[local] Set Elimination Schemes.

(** Induction over values, with the elements of arrays and the property
    values of objects covered by [Forall]. *)
Section value_ind.
Variable P : value → Prop.
Hypothesis Hnull : P VNull.
Hypothesis Hbool : ∀ b, P (VBool b).
Hypothesis Hnum : ∀ n, P (VNum n).
Hypothesis Hstr : ∀ s, P (VStr s).
Hypothesis Harr : ∀ items, Forall P items → P (VArr items).
Hypothesis Hobj : ∀ props, Forall (λ p, P p.2) props → P (VObj props).

Fixpoint value_ind (v : value) : P v :=
  match v with
  | VNull => Hnull
  | VBool b => Hbool b
  | VNum n => Hnum n
  | VStr s => Hstr s
  | VArr items =>
      Harr items
        ((fix all_items (l : list value) : Forall P l :=
            match l with
            | [] => Forall_nil_2 P
            | x :: l' => Forall_cons_2 P x l' (value_ind x) (all_items l')
            end) items)
  | VObj props =>
      Hobj props
        ((fix all_props (l : list (string * value)) : Forall (λ p, P p.2) l :=
            match l with
            | [] => Forall_nil_2 _
            | p :: l' =>
                Forall_cons_2 (λ p, P p.2) p l' (value_ind p.2) (all_props l')
            end) props)
  end.
End value_ind.

(** A JavaScript expression evaluates to a value or to [undefined]. *)
Abbreviation jsval := (option value).
Abbreviation undefined := (@None value).

Global Instance number_eq_dec : EqDecision number.
Proof. solve_decision. Defined.

(** What [JSON.stringify] keeps of a value: a number that is not finite
    is written as [null], wherever it stands. *)
Fixpoint serialised (v : value) : value :=
  match v with
  | VNum n => if finite_number n then v else VNull
  | VArr items => VArr (map serialised items)
  | VObj props => VObj (map (λ p, (p.1, serialised p.2)) props)
  | VNull | VBool _ | VStr _ => v
  end.

(** A value all of whose numbers are finite. *)
Definition finite (v : value) : Prop := serialised v = v.

(** Own property lookup in an object literal. *)
Fixpoint own_property (props : list (string * value)) (k : string) : jsval :=
  match props with
  | [] => undefined
  | (k', v) :: rest => if String.eqb k' k then Some v else own_property rest k
  end.

(** JavaScript truthiness: [!v] is [negb (truthy v)]. *)
Definition truthy (v : jsval) : bool :=
  match v with
  | None | Some VNull => false
  | Some (VBool b) => b
  | Some (VNum (Number m _)) => negb (Z.eqb m 0)
  | Some (VNum (Infinity _)) => true
  | Some (VStr s) => negb (String.eqb s "")
  | Some (VArr _) | Some (VObj _) => true
  end.

(** [v === s] for a string literal [s]. *)
Definition is_string (v : jsval) (s : string) : bool :=
  match v with
  | Some (VStr t) => String.eqb t s
  | _ => false
  end.

(** ** Exceptions *)

(** What is thrown: an [Error] object with its [name] and [message]. The
    empty name marks a thrown value that is not an [Error] object (see
    [not_an_Error]). *)
Record exn := Exn { name : string; message : string }.

Definition Error (msg : string) : exn := Exn "Error" msg.
Definition TypeError (msg : string) : exn := Exn "TypeError" msg.
Definition SyntaxError (msg : string) : exn := Exn "SyntaxError" msg.
Definition QuotaExceededError : exn :=
  Exn "QuotaExceededError" "The quota has been exceeded.".

Inductive Result (A : Type) : Type :=
| Return (a : A)
| Throw (e : exn).
Arguments Return {A} a.
Arguments Throw {A} e.

Global Instance Result_ret : MRet Result := λ A a, Return a.
Global Instance Result_bind : MBind Result := λ A B f m,
  match m with
  | Return a => f a
  | Throw e => Throw e
  end.
Global Instance Result_fmap : FMap Result := λ A B f m,
  match m with
  | Return a => Return (f a)
  | Throw e => Throw e
  end.

(** [data.k]: reading a property of [undefined] or [null] throws; the
    property names the code reads ([status], [result], [error], [output],
    [metrics], [predict_time]) exist on no primitive or array prototype,
    so every other non-object yields [undefined]. *)
Definition get_property (v : jsval) (k : string) : Result jsval :=
  match v with
  | None => Throw (TypeError ("Cannot read properties of undefined (reading '" ++ k ++ "')"))
  | Some VNull => Throw (TypeError ("Cannot read properties of null (reading '" ++ k ++ "')"))
  | Some (VObj props) => Return (own_property props k)
  | Some _ => Return undefined
  end.

(** ** State and exceptions *)

(** A computation over a mutable state [S] that returns or throws; a
    throw keeps the state reached so far. *)
Definition M (S A : Type) : Type := S → Result A * S.

Global Instance M_ret {S} : MRet (M S) := λ A a s, (Return a, s).
Global Instance M_bind {S} : MBind (M S) := λ A B f m s,
  match m s with
  | (Return a, s') => f a s'
  | (Throw e, s') => (Throw e, s')
  end.

Definition throw {S A} (e : exn) : M S A := λ s, (Throw e, s).

(** [try { body } catch (error) { handler }] *)
Definition try_catch {S A} (body : M S A) (handler : exn → M S A) : M S A :=
  λ s, match body s with
       | (Return a, s') => (Return a, s')
       | (Throw e, s') => handler e s'
       end.

(** A pure computation that may throw, run inside [M]. *)
Definition lift {S A} (r : Result A) : M S A := λ s, (r, s).

(** ** The host: browser and libraries *)

Class Host := {
  (** [JSON.parse]; [None] is a [SyntaxError] *)
  JSON_parse : string → option value;
  JSON_stringify : value → string;
  (** string coercion, as [new Error(v)] applies it to its argument *)
  ToString : jsval → string;
  (** zod's [z.string().url()] and [z.string().datetime()] format checks *)
  is_url : string → bool;
  is_datetime : string → bool;
  (** whether [localStorage.setItem(k, v)] fits the quota of the
      storage area holding the given entries *)
  quota_allows : gmap string string → string → string → bool
}.

(** What the statements below assume of the host: JSON text written by
    [JSON.stringify] is read back by [JSON.parse] as the value it was
    written from with [null] in the place of every number that is not
    finite, the empty text is not JSON, and coercing a string returns
    it. *)
Class HostLaws {host : Host} : Prop := {
  JSON_parse_stringify : ∀ v, JSON_parse (JSON_stringify v) = Some (serialised v);
  JSON_parse_empty : JSON_parse "" = None;
  ToString_string : ∀ s, ToString (Some (VStr s)) = s
}.

(** The browser state the code touches: [localStorage] and the clock
    read by [new Date().toISOString()]. *)
Record browser := Browser {
  localStorage : gmap string string;
  clock : string
}.

Definition with_localStorage (f : gmap string string → gmap string string)
    (b : browser) : browser :=
  {| localStorage := f (localStorage b); clock := clock b |}.

(** [localStorage.getItem] and [removeItem] always return; [setItem]
    throws when the quota would be exceeded. What the code writes to the
    console is not modelled. *)
Section Storage.
Context {host : Host}.

Definition getItem (key : string) : M browser (option string) :=
  λ b, (Return (localStorage b !! key), b).

Definition setItem (key data : string) : M browser unit :=
  λ b, if quota_allows (localStorage b) key data
       then (Return tt, with_localStorage (insert key data) b)
       else (Throw QuotaExceededError, b).

Definition removeItem (key : string) : M browser unit :=
  λ b, (Return tt, with_localStorage (delete key) b).

Definition parse (text : string) : M browser value :=
  match JSON_parse text with
  | Some v => mret v
  | None => throw (SyntaxError "Unexpected token in JSON")
  end.

Definition toISOString_now : M browser string :=
  λ b, (Return (clock b), b).
End Storage.

(** ** zod schemas, as far as the two validators use them *)

(** [schema.safeParse(v)]: [Some data] on success, [None] on failure. *)
Definition schema := jsval → option value.

Definition z_string : schema := λ v,
  match v with
  | Some (VStr s) => Some (VStr s)
  | _ => None
  end.

(** [z.number()] of zod 3 takes every number but [NaN], the infinities
    included. *)
Definition z_number : schema := λ v,
  match v with
  | Some (VNum n) => Some (VNum n)
  | _ => None
  end.

Definition z_string_refine (check : string → bool) : schema := λ v,
  match v with
  | Some (VStr s) => if check s then Some (VStr s) else None
  | _ => None
  end.

(** The fields of [z.object(shape)]: every key of the shape is checked
    against the input's property of that name; keys the shape does not
    name are stripped from the output. *)
Fixpoint z_shape (shape : list (string * schema)) (props : list (string * value))
    : option (list (string * value)) :=
  match shape with
  | [] => Some []
  | (k, s) :: rest =>
      v ← s (own_property props k);
      vs ← z_shape rest props;
      Some ((k, v) :: vs)
  end.

Definition z_object (shape : list (string * schema)) : schema := λ v,
  match v with
  | Some (VObj props) => VObj <$> z_shape shape props
  | _ => None
  end.

(** [z.array(elem)] fails as a whole when one element fails. *)
Definition z_array (elem : schema) : value → option (list value) := λ v,
  match v with
  | VArr items => mapM (λ x, elem (Some x)) items
  | _ => None
  end.

(** ** src/lib/utils: keys, validators and the store *)

Definition STORAGE_KEY : string := "magicapi_screenshot".
Definition AGE_DETECTION_STORAGE_KEY : string := "magicapi_age_detection".

Section Utils.
Context {host : Host}.

Definition screenshotItem : schema :=
  z_object [("input", z_string_refine is_url);
            ("imageData", z_string);
            ("createdAt", z_string_refine is_datetime)].

Definition screenshotValidator : value → option (list value) :=
  z_array screenshotItem.

Definition ageDetectionItem : schema :=
  z_object [("age", z_string);
            ("predictTime", z_number);
            ("imageData", z_string);
            ("createdAt", z_string_refine is_datetime)].

Definition ageDetectionResultValidator : value → option (list value) :=
  z_array ageDetectionItem.

(** [!storedData] holds of an absent entry and of the empty string. *)
Definition getFromStorage (key : string)
    (validator : value → option (list value)) : M browser (list value) :=
  try_catch
    (storedData ← getItem key;
     match storedData with
     | None => mret []
     | Some text =>
         if String.eqb text "" then mret []
         else
           parsedData ← parse text;
           match validator parsedData with
           | Some data => mret data
           | None => removeItem key;; mret []
           end
     end)
    (λ error, removeItem key;; mret []).

Definition saveToStorage (key : string) (item : value)
    (validator : value → option (list value)) : M browser (list value) :=
  try_catch
    (existingItems ← getFromStorage key validator;
     let newItems := item :: existingItems in
     setItem key (JSON_stringify (VArr newItems));;
     mret newItems)
    (λ error, mret [item]).

(** [Array.prototype.slice] on integer arguments (it truncates any other
    number to an integer first): a negative index counts from the end,
    and both ends are clamped to the array. *)
Definition relative_index (len k : Z) : Z :=
  if Z.ltb k 0 then Z.max (len + k) 0 else Z.min k len.

Definition slice {A} (l : list A) (start stop : Z) : list A :=
  let len := Z.of_nat (length l) in
  let from := relative_index len start in
  let to := relative_index len stop in
  take (Z.to_nat (to - from)) (drop (Z.to_nat from) l).

Definition slice_from {A} (l : list A) (start : Z) : list A :=
  slice l start (Z.of_nat (length l)).

Definition removeFromStorage (key : string) (index : Z)
    (validator : value → option (list value)) : M browser (list value) :=
  try_catch
    (items ← getFromStorage key validator;
     let newItems := (slice items 0 index ++ slice_from items (index + 1))%list in
     setItem key (JSON_stringify (VArr newItems));;
     mret newItems)
    (λ error, getFromStorage key validator).
End Utils.

(** ** The network and the rest of the web platform *)

Record Blob := { blob_type : string; blob_bytes : string }.
Record File := { file_name : string; file_blob : Blob }.

Inductive request_body :=
| NoBody
| FormData (fields : list (string * File))
| TextBody (text : string).

Record request := {
  url : string;
  method : string;
  headers : list (string * string);
  body : request_body
}.

(** A response as the code reads it: the status line and the outcome of
    consuming the body with [response.json()] or [response.blob()]. *)
Record response := {
  status : Z;
  statusText : string;
  json : Result value;
  blob : Result Blob
}.

(** [response.ok]: the status is in the range 200-299. *)
Definition ok (r : response) : bool :=
  Z.leb 200 (status r) && Z.leb (status r) 299.

Class Web := {
  (** the constants of [@/lib/constants], which is not among the sources *)
  API_URL : string;
  API_KEY : string;
  (** [fetch]: a response, or a rejection when the network fails *)
  fetch : request → Result response;
  (** [FileReader.readAsDataURL]; [None] when the read fails *)
  readAsDataURL : Blob → option string;
  (** [s.trim()], whether [new URL(s)] succeeds, and
      [URLSearchParams.toString] *)
  trim : string → string;
  URL_parses : string → bool;
  URLSearchParams_toString : list (string * string) → string
}.

(** What the display code of the pages asks of the engine. *)
Class Display := {
  (** [new Date(v).getTime()]; [None] is [NaN] *)
  Date_getTime : jsval → option Z;
  (** the string without its leading white space, which [parseInt]
      skips *)
  trimStart : string → string;
  (** [new URL(s)], its [hostname] and [pathname]; [None] when the
      constructor throws *)
  URL_parse : string → option (string * string)
}.

(** [Array.prototype.sort] is stable. On a comparator that orders the
    elements consistently its result is the one an insertion from the
    right computes; a comparator result of [NaN] counts as [0]. *)
Fixpoint sort_insert {A} (compareFn : A → A → Z) (x : A) (l : list A)
    : list A :=
  match l with
  | [] => [x]
  | y :: rest =>
      if Z.leb (compareFn x y) 0 then x :: l
      else y :: sort_insert compareFn x rest
  end.

Definition Array_sort {A} (compareFn : A → A → Z) (l : list A) : list A :=
  foldr (sort_insert compareFn) [] l.

(** [item.createdAt] of a record object *)
Definition createdAt_of (item : value) : jsval :=
  match item with
  | VObj props => own_property props "createdAt"
  | _ => None
  end.

Section DisplayCode.
Context {host : Host} {display : Display}.

(** [(a, b) => new Date(b.createdAt).getTime()
               - new Date(a.createdAt).getTime()] *)
Definition newest_first (a b : value) : Z :=
  match Date_getTime (createdAt_of b), Date_getTime (createdAt_of a) with
  | Some tb, Some ta => tb - ta
  | _, _ => 0
  end.

(** [parseInt(v, 10)]: the argument as a string, leading white space
    skipped, an optional sign, then the longest run of decimal digits;
    [None] is [NaN]. *)
Definition decimal_digit (c : ascii) : option Z :=
  let n := Z.of_N (N_of_ascii c) in
  if Z.leb 48 n && Z.leb n 57 then Some (n - 48) else None.

Fixpoint leading_digits (s : string) (acc : option Z) : option Z :=
  match s with
  | String c rest =>
      match decimal_digit c with
      | Some d => leading_digits rest (Some (10 * default 0 acc + d))
      | None => acc
      end
  | EmptyString => acc
  end.

Definition parseInt (v : jsval) : option Z :=
  match trimStart (ToString v) with
  | String "-" rest => Z.opp <$> leading_digits rest None
  | String "+" rest => leading_digits rest None
  | s => leading_digits s None
  end.
End DisplayCode.

(** An object literal. A property whose value is [undefined] is left
    out: neither [JSON.stringify], nor zod, nor a property read tells
    such a property from a missing one. *)
Definition object_literal (fields : list (string * jsval)) : value :=
  VObj (omap (λ '(k, v), pair k <$> v) fields).

(** [err instanceof Error ? err.message : fallback] *)
Definition message_or (fallback : string) (err : exn) : string :=
  if String.eqb (name err) "" then fallback else message err.

(** A promise rejected with something that is not an [Error] object
    (the [ProgressEvent] of a failed [FileReader]). *)
Definition not_an_Error : exn := Exn "" "".

Section Remote.
Context {host : Host} {web : Web}.

(** *** src/lib/upload.tsx *)
Definition uploadImage (file : File) : Result jsval :=
  let UPLOAD_ENDPOINT := API_URL ++ "/api/v1/capix/faceswap/upload/" in
  let formData := [("file1", file)] in
  response ← fetch {| url := UPLOAD_ENDPOINT;
                      method := "POST";
                      headers := [("accept", "application/json");
                                  ("x-magicapi-key", API_KEY)];
                      body := FormData formData |};
  if negb (ok response)
  then Throw (Error ("Upload failed: " ++ pretty (status response)))
  else
    data ← json response;
    data_status ← get_property (Some data) "status";
    invalid ← (if negb (is_string data_status "OK") then Return true
               else negb ∘ truthy <$> get_property (Some data) "result");
    if invalid : bool
    then Throw (Error "Upload failed: Invalid response")
    else get_property (Some data) "result".

Definition blobToBase64 (b : Blob) : Result string :=
  match readAsDataURL b with
  | Some base64String => Return base64String
  | None => Throw not_an_Error
  end.

Definition fileToBase64 (file : File) : Result string :=
  blobToBase64 (file_blob file).
End Remote.

(** ** The page components *)

(** A component runs over its own React state [P] and the browser. A
    handler reads the state of the render that created it once, when it
    starts; its [set...] calls are assignments to the state the next
    render will see. *)
Definition in_browser {P A} (m : M browser A) : M (P * browser) A :=
  λ '(p, b), let '(r, b') := m b in (r, (p, b')).

Definition page_state {P} : M (P * browser) P :=
  λ '(p, b), (Return p, (p, b)).

Definition set_state {P} (f : P → P) : M (P * browser) unit :=
  λ '(p, b), (Return tt, (f p, b)).

(** [!s] for [s : string | null] *)
Definition truthy_text (s : option string) : bool :=
  match s with
  | None => false
  | Some text => negb (String.eqb text "")
  end.

Module AgeDetectionResult.
Record t := { age : jsval; predictTime : jsval; imageData : string }.
End AgeDetectionResult.

(** *** The age-detection page (the version that keeps a history) *)
Module AgeDetectionPage.
(** The states [idle], [uploading], [processing], [success] and [error]. *)
Inductive ProcessingState := Idle | Uploading | Processing | Success | Failed.

(** The state variables of the component. *)

Record state := {
  file : option File;
  imageData : option string;
  processingState : ProcessingState;
  result : option AgeDetectionResult.t;
  error : option string;
  uploadedImageUrl : jsval;
  history : list value;
  expandedIndex : option Z
}.

Definition setProcessingState (v : ProcessingState) : M (state * browser) unit :=
  set_state (λ s, {| file := file s; imageData := imageData s;
                     processingState := v; result := result s;
                     error := error s; uploadedImageUrl := uploadedImageUrl s;
                     history := history s; expandedIndex := expandedIndex s |}).

Definition setResult (v : option AgeDetectionResult.t) : M (state * browser) unit :=
  set_state (λ s, {| file := file s; imageData := imageData s;
                     processingState := processingState s; result := v;
                     error := error s; uploadedImageUrl := uploadedImageUrl s;
                     history := history s; expandedIndex := expandedIndex s |}).

Definition setError (v : option string) : M (state * browser) unit :=
  set_state (λ s, {| file := file s; imageData := imageData s;
                     processingState := processingState s; result := result s;
                     error := v; uploadedImageUrl := uploadedImageUrl s;
                     history := history s; expandedIndex := expandedIndex s |}).

Definition setUploadedImageUrl (v : jsval) : M (state * browser) unit :=
  set_state (λ s, {| file := file s; imageData := imageData s;
                     processingState := processingState s; result := result s;
                     error := error s; uploadedImageUrl := v;
                     history := history s; expandedIndex := expandedIndex s |}).

Definition setHistory (v : list value) : M (state * browser) unit :=
  set_state (λ s, {| file := file s; imageData := imageData s;
                     processingState := processingState s; result := result s;
                     error := error s; uploadedImageUrl := uploadedImageUrl s;
                     history := v; expandedIndex := expandedIndex s |}).

Section Component.
Context {host : Host} {web : Web}.

(** [detectAge] closes over the [imageData] of the render that
    created it; the captured value is its first argument here. *)
Definition detectAge (imageData : option string) (imageUrl : jsval)
    : Result AgeDetectionResult.t :=
  let DETECTION_ENDPOINT :=
    API_URL ++ "/api/v1/magicapi/age-detector/predictions" in
  response ← fetch {| url := DETECTION_ENDPOINT;
                      method := "POST";
                      headers := [("x-magicapi-key", API_KEY);
                                  ("content-type", "application/json")];
                      body := TextBody (JSON_stringify (object_literal
                                [("input", Some (object_literal
                                             [("image", imageUrl)]))])) |};
  if negb (ok response)
  then Throw (Error ("Detection failed: " ++ pretty (status response)))
  else
    data ← json response;
    data_status ← get_property (Some data) "status";
    failed ← (if negb (is_string data_status "succeeded") then Return true
              else truthy <$> get_property (Some data) "error");
    if failed : bool
    then
      data_error ← get_property (Some data) "error";
      Throw (Error (ToString (if truthy data_error then data_error
                              else Some (VStr "Detection failed"))))
    else
      match imageData with
      | None => Throw (Error "Image data is missing")
      | Some imageData =>
          if String.eqb imageData ""
          then Throw (Error "Image data is missing")
          else
            output ← get_property (Some data) "output";
            metrics ← get_property (Some data) "metrics";
            predict_time ← get_property metrics "predict_time";
            Return {| AgeDetectionResult.age := output;
                      AgeDetectionResult.predictTime := predict_time;
                      AgeDetectionResult.imageData := imageData |}
      end.

(** [{ ...detectionResult, createdAt }] *)
Definition historyItem (detectionResult : AgeDetectionResult.t)
    (createdAt : string) : value :=
  object_literal
    [("age", AgeDetectionResult.age detectionResult);
     ("predictTime", AgeDetectionResult.predictTime detectionResult);
     ("imageData", Some (VStr (AgeDetectionResult.imageData detectionResult)));
     ("createdAt", Some (VStr createdAt))].

Definition processImage : M (state * browser) unit :=
  s ← page_state;
  match file s with
  | None => mret tt
  | Some file =>
      if negb (truthy_text (imageData s)) then mret tt
      else
        try_catch
          (setError None;;
           imageUrl ←
             (if negb (truthy (uploadedImageUrl s))
              then
                setProcessingState Uploading;;
                imageUrl ← lift (uploadImage file);
                setUploadedImageUrl imageUrl;;
                mret imageUrl
              else mret (uploadedImageUrl s));
           setProcessingState Processing;;
           detectionResult ← lift (detectAge (imageData s) imageUrl);
           createdAt ← in_browser toISOString_now;
           updatedHistory ← in_browser
             (saveToStorage AGE_DETECTION_STORAGE_KEY
                (historyItem detectionResult createdAt)
                ageDetectionResultValidator);
           setHistory updatedHistory;;
           setResult (Some detectionResult);;
           setProcessingState Success)
          (λ err,
           setError (Some (message_or "Unknown error" err));;
           setProcessingState Failed)
  end.
End Component.

Definition setFile (v : option File) : M (state * browser) unit :=
  set_state (λ s, {| file := v; imageData := imageData s;
                     processingState := processingState s; result := result s;
                     error := error s; uploadedImageUrl := uploadedImageUrl s;
                     history := history s; expandedIndex := expandedIndex s |}).

Definition setImageData (v : option string) : M (state * browser) unit :=
  set_state (λ s, {| file := file s; imageData := v;
                     processingState := processingState s; result := result s;
                     error := error s; uploadedImageUrl := uploadedImageUrl s;
                     history := history s; expandedIndex := expandedIndex s |}).

Definition setExpandedIndex (v : option Z) : M (state * browser) unit :=
  set_state (λ s, {| file := file s; imageData := imageData s;
                     processingState := processingState s; result := result s;
                     error := error s; uploadedImageUrl := uploadedImageUrl s;
                     history := history s; expandedIndex := v |}).

Section Handlers.
Context {host : Host} {web : Web} {display : Display}.

(** The state of the first render: the initialiser of [history] reads
    the storage. *)
Definition initialState : M browser state :=
  history ← getFromStorage AGE_DETECTION_STORAGE_KEY
              ageDetectionResultValidator;
  mret {| file := None; imageData := None; processingState := Idle;
          result := None; error := None; uploadedImageUrl := None;
          history := history; expandedIndex := None |}.

(** [files] is [e.target.files], empty when it is [null]. *)
Definition handleFileChange (files : list File) : M (state * browser) unit :=
  match files with
  | [] => mret tt
  | selectedFile :: _ =>
      setFile (Some selectedFile);;
      try_catch
        (base64Data ← lift (fileToBase64 selectedFile);
         setImageData (Some base64Data);;
         setResult None;;
         setError None;;
         setUploadedImageUrl None)
        (λ err, setError (Some "Failed to process image"))
  end.

Definition resetState : M (state * browser) unit :=
  setFile None;;
  setImageData None;;
  setResult None;;
  setError None;;
  setProcessingState Idle;;
  setUploadedImageUrl None.

Definition deleteHistoryItem (index : Z) : M (state * browser) unit :=
  s ← page_state;
  updatedHistory ← in_browser
    (removeFromStorage AGE_DETECTION_STORAGE_KEY index
       ageDetectionResultValidator);
  setHistory updatedHistory;;
  match expandedIndex s with
  | Some expanded =>
      if Z.eqb expanded index then setExpandedIndex None
      else if Z.ltb index expanded then setExpandedIndex (Some (expanded - 1))
      else mret tt
  | None => mret tt
  end.

Definition ageDescription (result : option AgeDetectionResult.t) : string :=
  match result with
  | None => ""
  | Some result =>
      if negb (truthy (AgeDetectionResult.age result)) then ""
      else
        match parseInt (AgeDetectionResult.age result) with
        | None => ""
        | Some age =>
            if Z.ltb age 13 then "Child"
            else if Z.ltb age 20 then "Teenager"
            else if Z.ltb age 30 then "Young Adult"
            else if Z.ltb age 50 then "Adult"
            else if Z.ltb age 65 then "Middle-aged"
            else "Senior"
        end
  end.

Definition sortedHistory (s : state) : list value :=
  Array_sort newest_first (history s).
End Handlers.
End AgeDetectionPage.

(** *** The screenshot page (the version that keeps a history) *)
Module ScreenshotCapture.
Inductive ImageFormat := jpg | png | webp.
(** The states [idle], [loading], [success] and [error]. *)
Inductive ScreenshotState := Idle | Loading | Success | Failed.

Definition format_name (f : ImageFormat) : string :=
  match f with jpg => "jpg" | png => "png" | webp => "webp" end.

(** [Omit<ScreenshotParams, "url">] *)
Record params_t := {
  resX : Z;
  resY : Z;
  outFormat : ImageFormat;
  waitTime : Z;
  isFullPage : bool;
  dismissModals : bool
}.

Record state := {
  apiKey : string;
  url : string;
  screenshotState : ScreenshotState;
  currentImageData : option string;
  error : option string;
  items : list value;
  expandedIndex : option Z;
  params : params_t
}.

Definition setScreenshotState (v : ScreenshotState) : M (state * browser) unit :=
  set_state (λ s, {| apiKey := apiKey s; url := url s; screenshotState := v;
                     currentImageData := currentImageData s; error := error s;
                     items := items s; expandedIndex := expandedIndex s;
                     params := params s |}).

Definition setCurrentImageData (v : option string) : M (state * browser) unit :=
  set_state (λ s, {| apiKey := apiKey s; url := url s;
                     screenshotState := screenshotState s;
                     currentImageData := v; error := error s;
                     items := items s; expandedIndex := expandedIndex s;
                     params := params s |}).

Definition setError (v : option string) : M (state * browser) unit :=
  set_state (λ s, {| apiKey := apiKey s; url := url s;
                     screenshotState := screenshotState s;
                     currentImageData := currentImageData s; error := v;
                     items := items s; expandedIndex := expandedIndex s;
                     params := params s |}).

Definition setItems (v : list value) : M (state * browser) unit :=
  set_state (λ s, {| apiKey := apiKey s; url := url s;
                     screenshotState := screenshotState s;
                     currentImageData := currentImageData s; error := error s;
                     items := v; expandedIndex := expandedIndex s;
                     params := params s |}).

Definition String_of_bool (b : bool) : string :=
  if b then "true" else "false".

Section Component.
Context {host : Host} {web : Web}.

Definition isValidUrl (s : state) : bool :=
  negb (String.eqb (trim (url s)) "") && URL_parses (url s).

(** [Object.entries({ ...params, url })], each value through [String] *)
Definition generateQueryString (p : params_t) (url : string) : string :=
  URLSearchParams_toString
    [("resX", pretty (resX p));
     ("resY", pretty (resY p));
     ("outFormat", format_name (outFormat p));
     ("waitTime", pretty (waitTime p));
     ("isFullPage", String_of_bool (isFullPage p));
     ("dismissModals", String_of_bool (dismissModals p));
     ("url", url)].

Definition captureScreenshot : M (state * browser) unit :=
  s ← page_state;
  if negb (isValidUrl s) || String.eqb (trim (apiKey s)) "" then mret tt
  else
    try_catch
      (setScreenshotState Loading;;
       setError None;;
       let queryString := generateQueryString (params s) (url s) in
       response ← lift (fetch
         (Build_request
            (API_URL ++ "/api/v1/magicapi/screenshot-api/api/screenshot?"
             ++ queryString)
            "GET"
            [("accept", "image/" ++ format_name (outFormat (params s)));
             ("x-magicapi-key", apiKey s)]
            NoBody));
       (if negb (ok response)
        then throw (Error ("API Error: " ++ pretty (status response)
                           ++ " " ++ statusText response))
        else mret tt);;
       blob ← lift (blob response);
       imageData ← lift (blobToBase64 blob);
       createdAt ← in_browser toISOString_now;
       let newItem := object_literal
         [("input", Some (VStr (url s)));
          ("imageData", Some (VStr imageData));
          ("createdAt", Some (VStr createdAt))] in
       updatedItems ← in_browser
         (saveToStorage STORAGE_KEY newItem screenshotValidator);
       setItems updatedItems;;
       setCurrentImageData (Some imageData);;
       setScreenshotState Success)
      (λ err,
       setError (Some (message_or "Unknown error occurred" err));;
       setScreenshotState Failed).
End Component.

Definition setExpandedIndex (v : option Z) : M (state * browser) unit :=
  set_state (λ s, {| apiKey := apiKey s; url := url s;
                     screenshotState := screenshotState s;
                     currentImageData := currentImageData s; error := error s;
                     items := items s; expandedIndex := v;
                     params := params s |}).

Section Handlers.
Context {host : Host} {web : Web} {display : Display}.

(** The state of the first render, and the effect that runs after it. *)
Definition initialState : state :=
  {| apiKey := ""; url := ""; screenshotState := Idle;
     currentImageData := None; error := None; items := [];
     expandedIndex := None;
     params := {| resX := 1280; resY := 900; outFormat := jpg;
                  waitTime := 1000; isFullPage := false;
                  dismissModals := false |} |}.

Definition mountEffect : M (state * browser) unit :=
  stored_items ← in_browser (getFromStorage STORAGE_KEY screenshotValidator);
  setItems stored_items.

Definition deleteScreenshot (index : Z) : M (state * browser) unit :=
  s ← page_state;
  updatedItems ← in_browser
    (removeFromStorage STORAGE_KEY index screenshotValidator);
  setItems updatedItems;;
  match expandedIndex s with
  | Some expanded =>
      if Z.eqb expanded index then setExpandedIndex None
      else if Z.ltb index expanded then setExpandedIndex (Some (expanded - 1))
      else mret tt
  | None => mret tt
  end.

Definition resetForm : M (state * browser) unit :=
  setCurrentImageData None;;
  setScreenshotState Idle;;
  setError None.

(** Lengths are counted in the characters of the model's strings. *)
Definition formatUrl (url : string) : string :=
  match URL_parse url with
  | Some (hostname, pathname) =>
      hostname ++ (if Nat.ltb 1 (String.length pathname) then "..." else "")
  | None =>
      if Nat.ltb 30 (String.length url)
      then String.substring 0 30 url ++ "..."
      else url
  end.

Definition sortedItems (s : state) : list value :=
  Array_sort newest_first (items s).
End Handlers.
End ScreenshotCapture.

(** ** Vocabulary of the statements *)

(** [data.k] for a response body that is not [null]. *)
Definition field (data : value) (k : string) : jsval :=
  match data with
  | VObj props => own_property props k
  | _ => None
  end.

(** The two record kinds as object literals. *)
Definition ScreenshotItem (input imageData createdAt : string) : value :=
  VObj [("input", VStr input); ("imageData", VStr imageData);
        ("createdAt", VStr createdAt)].

Definition AgeDetectionHistoryItem (age : string) (predictTime : number)
    (imageData createdAt : string) : value :=
  VObj [("age", VStr age); ("predictTime", VNum predictTime);
        ("imageData", VStr imageData); ("createdAt", VStr createdAt)].

(** A record that passes an element schema unchanged. *)
Definition conforms (elem : schema) (r : value) : Prop :=
  elem (Some r) = Some r.

Section Vocabulary.
Context {host : Host}.

(** What a read returns, and the browser it leaves behind. *)
Definition stored (key : string) (validator : value → option (list value))
    (b : browser) : list value :=
  match (getFromStorage key validator b).1 with
  | Return data => data
  | Throw _ => []
  end.

Definition healed (key : string) (validator : value → option (list value))
    (b : browser) : browser :=
  (getFromStorage key validator b).2.

(** Whether the storage of [b] takes the serialised [items] under [key],
    and the browser after such a write. *)
Definition accepts (b : browser) (key : string) (items : list value) : bool :=
  quota_allows (localStorage b) key (JSON_stringify (VArr items)).

Definition write (key : string) (items : list value) (b : browser) : browser :=
  with_localStorage (insert key (JSON_stringify (VArr items))) b.

(** Stored text that [JSON.parse] or the validator rejects. *)
Definition unreadable (validator : value → option (list value))
    (text : string) : Prop :=
  JSON_parse text = None
  ∨ ∃ v, JSON_parse text = Some v ∧ validator v = None.

(** Appending records one at a time, first to last, and the condition
    that the storage took every one of these writes. *)
Fixpoint append_all (key : string) (validator : value → option (list value))
    (records : list value) (b : browser) : browser :=
  match records with
  | [] => b
  | r :: rest =>
      append_all key validator rest (saveToStorage key r validator b).2
  end.

Fixpoint all_written (key : string) (validator : value → option (list value))
    (records : list value) (b : browser) : Prop :=
  match records with
  | [] => True
  | r :: rest =>
      accepts (healed key validator b) key (r :: stored key validator b) = true
      ∧ all_written key validator rest (saveToStorage key r validator b).2
  end.

(** Removing index 0 [n] times, and the condition that the storage took
    every one of these writes. *)
Fixpoint drain (key : string) (validator : value → option (list value))
    (n : nat) (b : browser) : browser :=
  match n with
  | O => b
  | S n' => drain key validator n' (removeFromStorage key 0 validator b).2
  end.

Fixpoint all_removed (key : string) (validator : value → option (list value))
    (n : nat) (b : browser) : Prop :=
  match n with
  | O => True
  | S n' =>
      accepts (healed key validator b) key (drop 1 (stored key validator b)) = true
      ∧ all_removed key validator n' (removeFromStorage key 0 validator b).2
  end.

Context {web : Web}.

(** The requests the three remote calls send. *)
Definition upload_request (file : File) : request :=
  {| url := API_URL ++ "/api/v1/capix/faceswap/upload/";
     method := "POST";
     headers := [("accept", "application/json"); ("x-magicapi-key", API_KEY)];
     body := FormData [("file1", file)] |}.

Definition detection_request (imageUrl : jsval) : request :=
  {| url := API_URL ++ "/api/v1/magicapi/age-detector/predictions";
     method := "POST";
     headers := [("x-magicapi-key", API_KEY); ("content-type", "application/json")];
     body := TextBody (JSON_stringify (object_literal
               [("input", Some (object_literal [("image", imageUrl)]))])) |}.

Definition capture_request (s : ScreenshotCapture.state) : request :=
  {| url := API_URL ++ "/api/v1/magicapi/screenshot-api/api/screenshot?"
            ++ ScreenshotCapture.generateQueryString
                 (ScreenshotCapture.params s) (ScreenshotCapture.url s);
     method := "GET";
     headers := [("accept", "image/" ++ ScreenshotCapture.format_name
                   (ScreenshotCapture.outFormat (ScreenshotCapture.params s)));
                 ("x-magicapi-key", ScreenshotCapture.apiKey s)];
     body := NoBody |}.

(** What the age-detection page asks of the network in one run: the
    upload, unless an earlier run already uploaded the file, then the
    detection. *)
Definition remote_detection (s : AgeDetectionPage.state) (file : File)
    : Result AgeDetectionResult.t :=
  imageUrl ← (if truthy (AgeDetectionPage.uploadedImageUrl s)
              then Return (AgeDetectionPage.uploadedImageUrl s)
              else uploadImage file);
  AgeDetectionPage.detectAge (AgeDetectionPage.imageData s) imageUrl.

(** The capture call and the encoding of the image it returns. *)
Definition remote_capture (s : ScreenshotCapture.state) : Result string :=
  response ← fetch (capture_request s);
  if negb (ok response)
  then Throw (Error ("API Error: " ++ pretty (status response)
                     ++ " " ++ statusText response))
  else blob ← blob response; blobToBase64 blob.
End Vocabulary.

(** ** Vocabulary for the display order *)
Section DisplayVocabulary.
Context {display : Display}.

(** A record whose [createdAt] the [Date] constructor reads. *)
Definition dated (r : value) : Prop :=
  is_Some (Date_getTime (createdAt_of r)).

(** [a] may stand before [b] in a list sorted with [newest_first]. *)
Definition not_older (a b : value) : Prop := newest_first a b ≤ 0.
End DisplayVocabulary.

(** ** A concrete host

    JSON text without insignificant whitespace, printed and parsed by
    the functions below; in string literals the quote and the backslash
    are escaped, every other character stands for itself. It shows that
    the laws of [HostLaws] can be met and lets the operations run on
    concrete browser states. *)
Module Demo.
(** *** Printing *)
Fixpoint print_uint (d : uint) (rest : string) : string :=
  match d with
  | Nil => rest
  | D0 d => String "0" (print_uint d rest)
  | D1 d => String "1" (print_uint d rest)
  | D2 d => String "2" (print_uint d rest)
  | D3 d => String "3" (print_uint d rest)
  | D4 d => String "4" (print_uint d rest)
  | D5 d => String "5" (print_uint d rest)
  | D6 d => String "6" (print_uint d rest)
  | D7 d => String "7" (print_uint d rest)
  | D8 d => String "8" (print_uint d rest)
  | D9 d => String "9" (print_uint d rest)
  end.

Definition print_int (i : int) (rest : string) : string :=
  match i with
  | Pos d => print_uint d rest
  | Neg d => String "-" (print_uint d rest)
  end.

(** [12e-1] for 1.2; an integer is printed without exponent. *)
Definition print_decimal (m e : Z) (rest : string) : string :=
  print_int (Z.to_int m)
    (if Z.eqb e 0 then rest
     else String "e" (print_int (Z.to_int e) rest)).

Definition print_number (n : number) (rest : string) : string :=
  match n with
  | Number m e => print_decimal m e rest
  | Infinity _ => String "n" (String "u" (String "l" (String "l" rest)))
  end.

(** The double quote, character 34. *)
Definition quote : ascii := Ascii false true false false false true false false.
Definition backslash : ascii := "\"%char.

Fixpoint print_chars (s rest : string) : string :=
  match s with
  | EmptyString => String quote rest
  | String c s' =>
      if Ascii.eqb c quote || Ascii.eqb c backslash
      then String backslash (String c (print_chars s' rest))
      else String c (print_chars s' rest)
  end.

Definition print_string (s rest : string) : string :=
  String quote (print_chars s rest).

Fixpoint literal (word rest : string) : string :=
  match word with
  | EmptyString => rest
  | String c word' => String c (literal word' rest)
  end.

Fixpoint print (v : value) (rest : string) : string :=
  match v with
  | VNull => literal "null" rest
  | VBool true => literal "true" rest
  | VBool false => literal "false" rest
  | VNum n => print_number n rest
  | VStr s => print_string s rest
  | VArr items =>
      String "["
        ((fix items_text (l : list value) : string :=
            match l with
            | [] => String "]" rest
            | x :: l' =>
                print x (match l' with
                         | [] => items_text l'
                         | _ :: _ => String "," (items_text l')
                         end)
            end) items)
  | VObj props =>
      String "{"
        ((fix members_text (l : list (string * value)) : string :=
            match l with
            | [] => String "}" rest
            | (k, x) :: l' =>
                print_string k
                  (String ":"
                     (print x (match l' with
                               | [] => members_text l'
                               | _ :: _ => String "," (members_text l')
                               end)))
            end) props)
  end.

(** The two inner loops of [print], named. *)
Fixpoint print_items (l : list value) (rest : string) : string :=
  match l with
  | [] => String "]" rest
  | x :: l' =>
      print x (match l' with
               | [] => print_items l' rest
               | _ :: _ => String "," (print_items l' rest)
               end)
  end.

Fixpoint print_members (l : list (string * value)) (rest : string) : string :=
  match l with
  | [] => String "}" rest
  | (k, x) :: l' =>
      print_string k
        (String ":"
           (print x (match l' with
                     | [] => print_members l' rest
                     | _ :: _ => String "," (print_members l' rest)
                     end)))
  end.

(** The fuel [parse_value] needs to read a value back. *)
Fixpoint size (v : value) : nat :=
  match v with
  | VArr items =>
      S ((fix items_size (l : list value) : nat :=
            match l with
            | [] => O
            | x :: l' => S (size x + items_size l')
            end) items)
  | VObj props =>
      S ((fix members_size (l : list (string * value)) : nat :=
            match l with
            | [] => O
            | (_, x) :: l' => S (size x + members_size l')
            end) props)
  | _ => 1%nat
  end.

Definition stringify (v : value) : string := print (serialised v) "".

(** *** Parsing *)
Definition digit_of (c : ascii) : option (uint → uint) :=
  if Ascii.eqb c "0" then Some D0 else
  if Ascii.eqb c "1" then Some D1 else
  if Ascii.eqb c "2" then Some D2 else
  if Ascii.eqb c "3" then Some D3 else
  if Ascii.eqb c "4" then Some D4 else
  if Ascii.eqb c "5" then Some D5 else
  if Ascii.eqb c "6" then Some D6 else
  if Ascii.eqb c "7" then Some D7 else
  if Ascii.eqb c "8" then Some D8 else
  if Ascii.eqb c "9" then Some D9 else None.

(** A number ends where the text ends or a delimiter follows. *)
Definition number_stops (rest : string) : bool :=
  match rest with
  | EmptyString => true
  | String c _ =>
      match digit_of c with
      | Some _ => false
      | None => negb (Ascii.eqb c "e")
      end
  end.

Fixpoint parse_uint (s : string) : uint * string :=
  match s with
  | EmptyString => (Nil, s)
  | String c s' =>
      match digit_of c with
      | Some d => let '(u, r) := parse_uint s' in (d u, r)
      | None => (Nil, s)
      end
  end.

Definition parse_digits (s : string) : option (uint * string) :=
  match parse_uint s with
  | (Nil, _) => None
  | (u, r) => Some (u, r)
  end.

Definition parse_int (s : string) : option (int * string) :=
  match s with
  | String c s' =>
      if Ascii.eqb c "-"
      then '(u, r) ← parse_digits s'; Some (Neg u, r)
      else '(u, r) ← parse_digits s; Some (Pos u, r)
  | EmptyString => None
  end.

(** The number a decimal is read as: itself, or an infinity when it is
    too large for a double. *)
Definition as_double (m e : Z) : number :=
  if finite_number (Number m e) then Number m e else Infinity (Z.ltb m 0).

Definition parse_number (s : string) : option (number * string) :=
  '(m, r) ← parse_int s;
  match r with
  | String c r' =>
      if Ascii.eqb c "e"
      then '(e, r'') ← parse_int r'; Some (as_double (Z.of_int m) (Z.of_int e), r'')
      else Some (as_double (Z.of_int m) 0, r)
  | EmptyString => Some (as_double (Z.of_int m) 0, r)
  end.

(** The characters of a string literal, after its opening quote. *)
Fixpoint parse_chars (s : string) : option (string * string) :=
  match s with
  | EmptyString => None
  | String c s' =>
      if Ascii.eqb c quote then Some (EmptyString, s')
      else if Ascii.eqb c backslash then
        match s' with
        | String c' s'' =>
            if Ascii.eqb c' quote || Ascii.eqb c' backslash
            then '(str, r) ← parse_chars s''; Some (String c' str, r)
            else None
        | EmptyString => None
        end
      else '(str, r) ← parse_chars s'; Some (String c str, r)
  end.

Fixpoint strip_prefix (p s : string) : option string :=
  match p, s with
  | EmptyString, _ => Some s
  | String c p', String c' s' =>
      if Ascii.eqb c c' then strip_prefix p' s' else None
  | String _ _, EmptyString => None
  end.

Fixpoint parse_value (fuel : nat) (s : string) : option (value * string) :=
  match fuel with
  | O => None
  | S fuel =>
      match parse_number s with
      | Some (n, r) => Some (VNum n, r)
      | None =>
          match s with
          | String c r =>
              if Ascii.eqb c "n" then pair VNull <$> strip_prefix "ull" r
              else if Ascii.eqb c "t" then pair (VBool true) <$> strip_prefix "rue" r
              else if Ascii.eqb c "f" then pair (VBool false) <$> strip_prefix "alse" r
              else if Ascii.eqb c quote then
                '(str, r') ← parse_chars r; Some (VStr str, r')
              else if Ascii.eqb c "[" then
                match strip_prefix "]" r with
                | Some r' => Some (VArr [], r')
                | None => '(items, r') ← parse_items fuel r; Some (VArr items, r')
                end
              else if Ascii.eqb c "{" then
                match strip_prefix "}" r with
                | Some r' => Some (VObj [], r')
                | None => '(props, r') ← parse_members fuel r; Some (VObj props, r')
                end
              else None
          | EmptyString => None
          end
      end
  end
with parse_items (fuel : nat) (s : string) : option (list value * string) :=
  match fuel with
  | O => None
  | S fuel =>
      '(x, r) ← parse_value fuel s;
      match r with
      | String c r' =>
          if Ascii.eqb c "," then
            '(l, r'') ← parse_items fuel r'; Some (x :: l, r'')
          else if Ascii.eqb c "]" then Some ([x], r')
          else None
      | EmptyString => None
      end
  end
with parse_members (fuel : nat) (s : string)
    : option (list (string * value) * string) :=
  match fuel with
  | O => None
  | S fuel =>
      match s with
      | String c s' =>
          if Ascii.eqb c quote then
            '(k, r0) ← parse_chars s';
            match r0 with
            | String c0 r1 =>
                if Ascii.eqb c0 ":" then
                  '(x, r) ← parse_value fuel r1;
                  match r with
                  | String c r' =>
                      if Ascii.eqb c "," then
                        '(l, r'') ← parse_members fuel r'; Some ((k, x) :: l, r'')
                      else if Ascii.eqb c "}" then Some ([(k, x)], r')
                      else None
                  | EmptyString => None
                  end
                else None
            | EmptyString => None
            end
          else None
      | EmptyString => None
      end
  end.

Definition parse_text (s : string) : option value :=
  match parse_value (S (String.length s)) s with
  | Some (v, EmptyString) => Some v
  | _ => None
  end.

(** *** String coercion, formats and quota *)

(** [String(v)]; the format of a decimal is that of [print_decimal]. *)
Fixpoint to_string (v : value) : string :=
  match v with
  | VNull => "null"
  | VBool true => "true"
  | VBool false => "false"
  | VNum (Number m e) => print_decimal m e ""
  | VNum (Infinity negative) => if negative then "-Infinity" else "Infinity"
  | VStr s => s
  | VArr items =>
      (fix join (l : list value) : string :=
         match l with
         | [] => ""
         | x :: l' =>
             (match x with VNull => "" | _ => to_string x end)
             ++ (match l' with [] => "" | _ :: _ => "," ++ join l' end)
         end) items
  | VObj _ => "[object Object]"
  end.

Definition coerce (v : jsval) : string :=
  match v with
  | Some x => to_string x
  | None => "undefined"
  end.

(** An absolute http(s) URL with something after the scheme. *)
Definition url_like (s : string) : bool :=
  match strip_prefix "https://" s, strip_prefix "http://" s with
  | Some r, _ | None, Some r => negb (String.eqb r "")
  | None, None => false
  end.

Fixpoint skip_digits (n : nat) (s : string) : option string :=
  match n, s with
  | O, _ => Some s
  | S n', String c r =>
      match digit_of c with
      | Some _ => skip_digits n' r
      | None => None
      end
  | S _, EmptyString => None
  end.

(** [YYYY-MM-DDThh:mm:ss], an optional fraction, then [Z]. *)
Definition datetime_like (s : string) : bool :=
  match
    r ← skip_digits 4 s; r ← strip_prefix "-" r;
    r ← skip_digits 2 r; r ← strip_prefix "-" r;
    r ← skip_digits 2 r; r ← strip_prefix "T" r;
    r ← skip_digits 2 r; r ← strip_prefix ":" r;
    r ← skip_digits 2 r; r ← strip_prefix ":" r;
    skip_digits 2 r
  with
  | Some r =>
      String.eqb r "Z"
      || match strip_prefix "." r ≫= parse_digits with
         | Some (_, r') => String.eqb r' "Z"
         | None => false
         end
  | None => false
  end.

(** The characters held by a storage area. *)
Definition storage_size (m : gmap string string) : nat :=
  map_fold (λ k v n, String.length k + String.length v + n)%nat O m.

(** A quota in characters; [None] is a storage that never fills up. *)
Definition fits (quota : option nat) (m : gmap string string)
    (key data : string) : bool :=
  match quota with
  | None => true
  | Some q => Nat.leb (storage_size (<[key:=data]> m)) q
  end.

(** *** The web platform of the examples *)
Fixpoint trim_start (s : string) : string :=
  match s with
  | String c r => if Ascii.eqb c " " then trim_start r else s
  | EmptyString => s
  end.

Fixpoint trim_end (s : string) : string :=
  match s with
  | String c r =>
      match trim_end r with
      | EmptyString => if Ascii.eqb c " " then EmptyString else String c EmptyString
      | r' => String c r'
      end
  | EmptyString => s
  end.

Fixpoint query_string (l : list (string * string)) : string :=
  match l with
  | [] => ""
  | (k, v) :: l' =>
      k ++ "=" ++ v ++ (match l' with [] => "" | _ :: _ => "&" ++ query_string l' end)
  end.

(** A data URL; the bytes of the blob are taken as already written in
    base64. *)
Definition data_url (b : Blob) : option string :=
  Some ("data:" ++ blob_type b ++ ";base64," ++ blob_bytes b).

Definition web (server : request → Result response) : Web :=
  {| API_URL := "https://api.magicapi.dev";
     API_KEY := "demo-key";
     fetch := server;
     readAsDataURL := data_url;
     trim := λ s, trim_end (trim_start s);
     URL_parses := url_like;
     URLSearchParams_toString := query_string |}.

(** *** Measures used to state that parsing inverts printing *)
Fixpoint items_size (l : list value) : nat :=
  match l with
  | [] => O
  | x :: l' => S (size x + items_size l')
  end.

Fixpoint members_size (l : list (string * value)) : nat :=
  match l with
  | [] => O
  | (_, x) :: l' => S (size x + members_size l')
  end.

Definition head_is_digit (s : string) : bool :=
  match s with
  | EmptyString => false
  | String c _ => match digit_of c with Some _ => true | None => false end
  end.

Definition digits (i : int) : uint :=
  match i with Pos d | Neg d => d end.

Definition reads_back (v : value) : Prop :=
  ∀ rest fuel, (size v ≤ fuel)%nat → number_stops rest = true →
    parse_value fuel (print v rest) = Some (v, rest).

Definition long_enough (v : value) : Prop :=
  ∀ rest, (size v + String.length rest ≤ String.length (print v rest))%nat.

(** *** The concrete host, with a storage quota in characters ([None]:
    no limit) *)
Definition host (quota : option nat) : Host :=
  {| JSON_parse := parse_text;
     JSON_stringify := stringify;
     ToString := coerce;
     is_url := url_like;
     is_datetime := datetime_like;
     quota_allows := fits quota |}.

(** *** The display services of the examples *)
Fixpoint take_digits (n : nat) (s : string) (acc : Z) : option (Z * string) :=
  match n, s with
  | O, _ => Some (acc, s)
  | S n', String c r =>
      match decimal_digit c with
      | Some d => take_digits n' r (10 * acc + d)
      | None => None
      end
  | S _, EmptyString => None
  end.

(** Days from 1970-01-01 to a date of the Gregorian calendar. *)
Definition days_from_civil (y m d : Z) : Z :=
  let y' := if Z.leb m 2 then y - 1 else y in
  let era := y' / 400 in
  let yoe := y' - era * 400 in
  let doy := (153 * (if Z.ltb 2 m then m - 3 else m + 9) + 2) / 5 + d - 1 in
  let doe := yoe * 365 + yoe / 4 - yoe / 100 + doy in
  era * 146097 + doe - 719468.

(** The time value of [YYYY-MM-DDThh:mm:ss], an optional fraction of
    three digits, then [Z]. *)
Definition epoch_ms (s : string) : option Z :=
  '(y, r) ← take_digits 4 s 0; r ← strip_prefix "-" r;
  '(mo, r) ← take_digits 2 r 0; r ← strip_prefix "-" r;
  '(d, r) ← take_digits 2 r 0; r ← strip_prefix "T" r;
  '(h, r) ← take_digits 2 r 0; r ← strip_prefix ":" r;
  '(mi, r) ← take_digits 2 r 0; r ← strip_prefix ":" r;
  '(sec, r) ← take_digits 2 r 0;
  ms ← (if String.eqb r "Z" then Some 0
        else r ← strip_prefix "." r;
             '(ms, r) ← take_digits 3 r 0;
             if String.eqb r "Z" then Some ms else None);
  Some ((((days_from_civil y mo d * 24 + h) * 60 + mi) * 60 + sec) * 1000 + ms).

Definition time_value (v : jsval) : option Z :=
  match v with
  | Some (VStr s) => epoch_ms s
  | _ => None
  end.

(** The text up to the first of the two characters, and the text from
    there on. *)
Fixpoint split_at (stop1 stop2 : ascii) (s : string) : string * string :=
  match s with
  | EmptyString => (EmptyString, EmptyString)
  | String c r =>
      if Ascii.eqb c stop1 || Ascii.eqb c stop2 then (EmptyString, s)
      else let '(before, after) := split_at stop1 stop2 r in
           (String c before, after)
  end.

(** Host name and path of an absolute http(s) URL without query. *)
Definition url_parts (s : string) : option (string * string) :=
  match strip_prefix "https://" s, strip_prefix "http://" s with
  | Some r, _ | None, Some r =>
      if String.eqb r "" then None
      else
        let '(authority, path) := split_at "/" "/" r in
        Some ((split_at ":" ":" authority).1,
              if String.eqb path "" then "/" else path)
  | None, None => None
  end.

Definition display : Display :=
  {| Date_getTime := time_value;
     trimStart := trim_start;
     URL_parse := url_parts |}.
End Demo.

(** ** Concrete states, records and servers for the examples *)

(** A host whose storage never fills up, and one whose storage is full. *)
Definition roomy_host : Host := Demo.host None.
Definition full_host : Host := Demo.host (Some O).

Definition shot_a : value :=
  ScreenshotItem "https://example.com" "data:image/jpeg;base64,AAAA"
    "2025-01-01T10:00:00.000Z".
Definition shot_b : value :=
  ScreenshotItem "https://rocq-prover.org" "data:image/jpeg;base64,BBBB"
    "2025-02-01T10:00:00.000Z".
Definition shot_c : value :=
  ScreenshotItem "http://localhost:3000/page" "data:image/png;base64,CCCC"
    "2025-03-01T10:00:00Z".

(** A record whose [createdAt] is not a date-time string. *)
Definition shot_undated : value :=
  ScreenshotItem "https://example.com" "data:image/jpeg;base64,AAAA" "yesterday".

Definition fresh_browser : browser :=
  {| localStorage := ∅; clock := "2025-03-02T09:30:00.000Z" |}.

(** A browser whose storage holds the given raw text under the key. *)
Definition browser_holding (key text : string) : browser :=
  {| localStorage := {[ key := text ]}; clock := "2025-03-02T09:30:00.000Z" |}.

(** The three screenshots, stored most recent first. *)
Definition three_shots : browser :=
  write (host := roomy_host) STORAGE_KEY [shot_c; shot_b; shot_a] fresh_browser.

Definition respond (code : Z) (body : Result value) : response :=
  {| status := code;
     statusText := if Z.eqb code 200 then "OK" else "Internal Server Error";
     json := body;
     blob := Return {| blob_type := "image/jpeg"; blob_bytes := "/9j/4AAQ" |} |}.

(** A server that answers every request with the same response. *)
Definition server (r : response) : Web := Demo.web (λ _, Return r).

Definition upload_ok : response :=
  respond 200 (Return (VObj [("status", VStr "OK"); ("result", VStr "abc123")])).

Definition upload_failed : response :=
  respond 200 (Return (VObj [("status", VStr "FAILED")])).

Definition server_error : response :=
  respond 500 (Throw (SyntaxError "Unexpected token in JSON")).

Definition detection_ok : response :=
  respond 200 (Return (VObj [("status", VStr "succeeded");
                             ("output", VStr "34");
                             ("error", VNull);
                             ("metrics", VObj [("predict_time", VNum (Number 12 (-1)))])])).

(** The same answer with the empty string as its [error]. *)
Definition detection_empty_error : response :=
  respond 200 (Return (VObj [("status", VStr "succeeded");
                             ("output", VStr "34");
                             ("error", VStr "");
                             ("metrics", VObj [("predict_time", VNum (Number 12 (-1)))])])).

(** An answer that succeeded, has no error and no [metrics]. *)
Definition detection_without_metrics : response :=
  respond 200 (Return (VObj [("status", VStr "succeeded");
                             ("output", VStr "34");
                             ("error", VNull)])).

Definition portrait : File :=
  {| file_name := "portrait.jpg";
     file_blob := {| blob_type := "image/jpeg"; blob_bytes := "/9j/4AAQ" |} |}.

Definition portrait_data : string := "data:image/jpeg;base64,/9j/4AAQ".

Definition age_page : AgeDetectionPage.state :=
  {| AgeDetectionPage.file := Some portrait;
     AgeDetectionPage.imageData := Some portrait_data;
     AgeDetectionPage.processingState := AgeDetectionPage.Idle;
     AgeDetectionPage.result := None;
     AgeDetectionPage.error := None;
     AgeDetectionPage.uploadedImageUrl := None;
     AgeDetectionPage.history := [];
     AgeDetectionPage.expandedIndex := None |}.

Definition screenshot_page : ScreenshotCapture.state :=
  {| ScreenshotCapture.apiKey := "secret";
     ScreenshotCapture.url := "https://example.com";
     ScreenshotCapture.screenshotState := ScreenshotCapture.Idle;
     ScreenshotCapture.currentImageData := None;
     ScreenshotCapture.error := None;
     ScreenshotCapture.items := [shot_c; shot_b; shot_a];
     ScreenshotCapture.expandedIndex := None;
     ScreenshotCapture.params :=
       {| ScreenshotCapture.resX := 1280;
          ScreenshotCapture.resY := 900;
          ScreenshotCapture.outFormat := ScreenshotCapture.jpg;
          ScreenshotCapture.waitTime := 1000;
          ScreenshotCapture.isFullPage := false;
          ScreenshotCapture.dismissModals := false |} |}.

(** A server that answers the upload and the detection request. *)
Definition working_server : Web :=
  Demo.web (λ req,
    if String.eqb (url req)
         "https://api.magicapi.dev/api/v1/capix/faceswap/upload/"
    then Return upload_ok
    else Return detection_ok).

(** An age-detection record, and a browser that holds it next to the
    three screenshots. *)
Definition age_a : value :=
  AgeDetectionHistoryItem "34" (Number 12 (-1)) portrait_data
    "2025-01-05T08:00:00.000Z".

Definition two_histories : browser :=
  write (host := roomy_host) AGE_DETECTION_STORAGE_KEY [age_a] three_shots.

(** A server whose upload works and whose detection is down. *)
Definition detection_down : Web :=
  Demo.web (λ req,
    if String.eqb (url req)
         "https://api.magicapi.dev/api/v1/capix/faceswap/upload/"
    then Return upload_ok
    else Return server_error).

(** A platform whose [FileReader] fails on every blob. *)
Definition failing_reader : Web :=
  {| API_URL := "https://api.magicapi.dev";
     API_KEY := "demo-key";
     fetch := λ _, Return upload_ok;
     readAsDataURL := λ _, None;
     trim := λ s, Demo.trim_end (Demo.trim_start s);
     URL_parses := Demo.url_like;
     URLSearchParams_toString := Demo.query_string |}.


(** The screenshot page with its items out of order. *)
Definition screenshot_page_shuffled : ScreenshotCapture.state :=
  {| ScreenshotCapture.apiKey := "secret";
     ScreenshotCapture.url := "https://example.com";
     ScreenshotCapture.screenshotState := ScreenshotCapture.Idle;
     ScreenshotCapture.currentImageData := None;
     ScreenshotCapture.error := None;
     ScreenshotCapture.items := [shot_a; shot_c; shot_b];
     ScreenshotCapture.expandedIndex := None;
     ScreenshotCapture.params :=
       ScreenshotCapture.params screenshot_page |}.

(** An age-detection record whose prediction time is an infinity, the
    same record with the literal [1e400] in its place, and a browser
    whose age-detection history was written with that literal. *)
Definition age_overflowed : value :=
  AgeDetectionHistoryItem "51" (Infinity false) portrait_data
    "2025-01-06T08:00:00.000Z".

Definition age_1e400 : value :=
  AgeDetectionHistoryItem "51" (Number 1 400) portrait_data
    "2025-01-06T08:00:00.000Z".

Definition overflowed_history : browser :=
  browser_holding AGE_DETECTION_STORAGE_KEY
    (Demo.print (VArr [age_1e400; age_a]) "").

(** A detection answer whose prediction time is too large for a
    double. *)
Definition detection_overflowed : response :=
  respond 200 (Return (VObj [("status", VStr "succeeded");
                             ("output", VStr "51");
                             ("error", VNull);
                             ("metrics",
                              VObj [("predict_time", VNum (Infinity false))])])).

(** Detection answers with a success status whose body is [null], and
    whose body is not JSON. *)
Definition detection_null_body : response := respond 200 (Return VNull).

Definition detection_not_json : response :=
  respond 200 (Throw (SyntaxError "Unexpected token < in JSON")).

(** The screenshot [shot_a] with a field the schema does not name. *)
Definition shot_tagged : value :=
  VObj [("input", VStr "https://example.com");
        ("imageData", VStr "data:image/jpeg;base64,AAAA");
        ("createdAt", VStr "2025-01-01T10:00:00.000Z");
        ("note", VStr "front page")].

(** Another file. *)
Definition landscape : File :=
  {| file_name := "landscape.png";
     file_blob := {| blob_type := "image/png"; blob_bytes := "iVBORw0KGgo" |} |}.

(** What the detection answer [detection_ok] turns into. *)
Definition detected (age : string) : AgeDetectionResult.t :=
  {| AgeDetectionResult.age := Some (VStr age);
     AgeDetectionResult.predictTime := Some (VNum (Number 12 (-1)));
     AgeDetectionResult.imageData := portrait_data |}.

(** * Facts *)

Open Scope list_scope.

(** ** Parsing inverts printing in the concrete host *)
Module DemoFacts.
Import Demo.

Lemma print_VArr items rest :
  print (VArr items) rest = String "[" (print_items items rest).
Proof.
  simpl. f_equal. induction items as [|x l IH]; [done|].
  simpl. destruct l; simpl in *; [done|by rewrite IH].
Qed.

Lemma print_VObj props rest :
  print (VObj props) rest = String "{" (print_members props rest).
Proof.
  simpl. f_equal. induction props as [|[k x] l IH]; [done|].
  simpl. destruct l; simpl in *; [done|by rewrite IH].
Qed.

Lemma parse_uint_print d rest :
  head_is_digit rest = false →
  parse_uint (print_uint d rest) = (d, rest).
Proof.
  intros Hrest. induction d; simpl; rewrite ?IHd; try done.
  destruct rest as [|c r]; [done|]. simpl in *.
  by destruct (digit_of c).
Qed.

Lemma parse_digits_print d rest :
  d ≠ Nil → head_is_digit rest = false →
  parse_digits (print_uint d rest) = Some (d, rest).
Proof.
  intros Hd Hrest. unfold parse_digits. rewrite parse_uint_print by done.
  by destruct d.
Qed.

Lemma parse_int_print i rest :
  digits i ≠ Nil → head_is_digit rest = false →
  parse_int (print_int i rest) = Some (i, rest).
Proof.
  intros Hd Hrest. destruct i as [d|d]; simpl in *.
  - pose proof (parse_digits_print d rest Hd Hrest) as Hp.
    destruct d; try done; simpl in *; by rewrite Hp.
  - by rewrite parse_digits_print.
Qed.

Lemma to_int_digits z : digits (Z.to_int z) ≠ Nil.
Proof.
  destruct z; simpl; [done| |]; apply Unsigned.to_uint_nonnil.
Qed.

Lemma number_stops_digit rest :
  number_stops rest = true → head_is_digit rest = false.
Proof. destruct rest as [|c r]; [done|]. simpl. by destruct (digit_of c). Qed.

Lemma parse_number_print n rest :
  finite_number n = true →
  number_stops rest = true →
  parse_number (print_number n rest) = Some (n, rest).
Proof.
  intros Hfin Hrest. destruct n as [m e|negative]; [|done].
  assert (Hm : as_double m e = Number m e) by (unfold as_double; by rewrite Hfin).
  unfold parse_number, print_number, print_decimal.
  destruct (Z.eqb_spec e 0) as [->|He].
  - rewrite parse_int_print; [|apply to_int_digits|by apply number_stops_digit].
    cbn [mbind option_bind]. rewrite of_to, Hm.
    destruct rest as [|c r]; [done|]. simpl in Hrest.
    destruct (digit_of c); [done|]. by destruct (Ascii.eqb c "e").
  - rewrite parse_int_print; [|apply to_int_digits|done].
    cbn [mbind option_bind]. change (Ascii.eqb "e" "e") with true. cbv iota.
    rewrite parse_int_print; [|apply to_int_digits|by apply number_stops_digit].
    cbn [mbind option_bind]. by rewrite !of_to, Hm.
Qed.

Lemma parse_chars_print s rest :
  parse_chars (print_chars s rest) = Some (s, rest).
Proof.
  induction s as [|c s IH]; simpl.
  - done.
  - destruct (Ascii.eqb c quote) eqn:Hq; simpl.
    + rewrite Hq. simpl. by rewrite IH.
    + destruct (Ascii.eqb c backslash) eqn:Hb; simpl.
      * rewrite Hq, Hb. simpl. by rewrite IH.
      * rewrite Hq, Hb. by rewrite IH.
Qed.

Lemma size_VArr items : size (VArr items) = S (items_size items).
Proof. reflexivity. Qed.

Lemma size_VObj props : size (VObj props) = S (members_size props).
Proof. reflexivity. Qed.

Lemma parse_number_head c r :
  digit_of c = None → Ascii.eqb c "-" = false →
  parse_number (String c r) = None.
Proof.
  intros Hd Hm. unfold parse_number, parse_int, parse_digits. simpl.
  by rewrite Hm, Hd.
Qed.

(** What a printed value starts with is not a closing bracket. *)
Lemma print_uint_head d rest :
  d ≠ Nil → ∃ c r, print_uint d rest = String c r ∧ Ascii.eqb "]" c = false.
Proof. destruct d; [done|..]; intros _; simpl; eauto. Qed.

Lemma print_head v rest :
  ∃ c r, print v rest = String c r ∧ Ascii.eqb "]" c = false.
Proof.
  destruct v as [|[|]|[m e|negative]|s|items|props]; simpl; eauto.
  unfold print_decimal. simpl.
  pose proof (to_int_digits m) as Hm.
  destruct (Z.to_int m) as [d|d]; simpl in *; [|by eauto].
  by apply print_uint_head.
Qed.

Lemma strip_bracket_print v rest : strip_prefix "]" (print v rest) = None.
Proof.
  destruct (print_head v rest) as (c & r & -> & Hc).
  cbn [strip_prefix]. by rewrite Hc.
Qed.

Lemma parse_items_print l :
  Forall reads_back l → l ≠ [] →
  ∀ rest fuel, (items_size l ≤ fuel)%nat →
    parse_items fuel (print_items l rest) = Some (l, rest).
Proof.
  induction 1 as [|x l Hx _ IH]; [done|]. intros _ rest [|fuel] Hf; simpl in Hf; [lia|].
  destruct l as [|y l].
  - simpl. rewrite Hx by (done || lia). done.
  - specialize (IH ltac:(done) rest fuel ltac:(lia)).
    simpl in IH |- *. rewrite Hx by (done || lia). simpl.
    by rewrite IH.
Qed.

Lemma parse_members_print l :
  Forall (λ p, reads_back p.2) l → l ≠ [] →
  ∀ rest fuel, (members_size l ≤ fuel)%nat →
    parse_members fuel (print_members l rest) = Some (l, rest).
Proof.
  induction 1 as [|[k x] l Hx _ IH]; [done|]. intros _ rest [|fuel] Hf; simpl in Hf; [lia|].
  simpl in Hx. destruct l as [|[k' y] l].
  - simpl. rewrite parse_chars_print. simpl. rewrite Hx by (done || lia). done.
  - specialize (IH ltac:(done) rest fuel ltac:(lia)).
    simpl in IH |- *. rewrite parse_chars_print. simpl.
    rewrite Hx by (done || lia). simpl.
    by rewrite IH.
Qed.

Lemma reads_back_VArr items : Forall reads_back items → reads_back (VArr items).
Proof.
  intros IH rest [|fuel] Hf Hs; [simpl in Hf; lia|].
  rewrite print_VArr. rewrite size_VArr in Hf.
  destruct items as [|x l]; [done|].
  cbn [parse_value]. rewrite parse_number_head by done.
  replace (strip_prefix "]" (print_items (x :: l) rest)) with (@None string)
    by (symmetry; apply strip_bracket_print).
  rewrite parse_items_print by (done || lia). done.
Qed.

Lemma reads_back_VObj props :
  Forall (λ p, reads_back p.2) props → reads_back (VObj props).
Proof.
  intros IH rest [|fuel] Hf Hs; [simpl in Hf; lia|].
  rewrite print_VObj. rewrite size_VObj in Hf.
  destruct props as [|[k x] l]; [done|].
  cbn [parse_value]. rewrite parse_number_head by done.
  replace (strip_prefix "}" (print_members ((k, x) :: l) rest)) with (@None string)
    by done.
  rewrite parse_members_print by (done || lia). done.
Qed.

(** What was written of a value is read back as it was written. *)
Lemma parse_print v : reads_back (serialised v).
Proof.
  induction v as [|b|n|s|items IH|props IH] using value_ind.
  - by intros rest [|fuel] Hf Hs; [simpl in Hf; lia|].
  - intros rest [|fuel] Hf Hs; [simpl in Hf; lia|]. by destruct b.
  - cbn [serialised]. destruct (finite_number n) eqn:Hn.
    + intros rest [|fuel] Hf Hs; [simpl in Hf; lia|].
      simpl. by rewrite parse_number_print.
    + by intros rest [|fuel] Hf Hs; [simpl in Hf; lia|].
  - intros rest [|fuel] Hf Hs; [simpl in Hf; lia|].
    cbn [serialised parse_value print]. unfold print_string.
    rewrite parse_number_head by done.
    simpl. by rewrite parse_chars_print.
  - cbn [serialised]. apply reads_back_VArr. by apply Forall_fmap.
  - cbn [serialised]. apply reads_back_VObj. by apply Forall_fmap.
Qed.

Lemma length_print_uint d rest :
  (String.length rest ≤ String.length (print_uint d rest))%nat.
Proof. induction d; simpl; lia. Qed.

Lemma length_print_int i rest :
  digits i ≠ Nil →
  (S (String.length rest) ≤ String.length (print_int i rest))%nat.
Proof.
  destruct i as [d|d]; simpl; intros Hd.
  - destruct d; [done|..]; simpl; pose proof (length_print_uint d rest); lia.
  - pose proof (length_print_uint d rest); lia.
Qed.

Lemma length_print_chars s rest :
  (S (String.length rest) ≤ String.length (print_chars s rest))%nat.
Proof.
  induction s as [|c s IH]; simpl; [lia|].
  destruct (_ || _); simpl; lia.
Qed.

Lemma length_print v : long_enough v.
Proof.
  induction v as [|b|n|s|items IH|props IH] using value_ind; intros rest.
  - simpl. lia.
  - destruct b; simpl; lia.
  - destruct n as [m e|negative]; [|simpl; lia].
    simpl. unfold print_decimal.
    pose proof (length_print_int (Z.to_int m)
      (if Z.eqb e 0 then rest
       else String "e" (print_int (Z.to_int e) rest))
      (to_int_digits _)) as Hm.
    destruct (Z.eqb _ _); [lia|].
    pose proof (length_print_int (Z.to_int e) rest (to_int_digits _)).
    simpl in Hm. lia.
  - simpl. pose proof (length_print_chars s rest). lia.
  - rewrite print_VArr, size_VArr.
    assert (items_size items + String.length rest
            ≤ String.length (print_items items rest))%nat; [|simpl; lia].
    induction IH as [|x l Hx _ IHl]; simpl; [lia|].
    destruct l as [|y l].
    + specialize (Hx (String "]" rest)). simpl in *. lia.
    + specialize (Hx (String "," (print_items (y :: l) rest))).
      simpl in *. lia.
  - rewrite print_VObj, size_VObj.
    assert (members_size props + String.length rest
            ≤ String.length (print_members props rest))%nat; [|simpl; lia].
    induction IH as [|[k x] l Hx _ IHl]; simpl; [lia|].
    simpl in Hx.
    destruct l as [|[k' y] l].
    + specialize (Hx (String "}" rest)).
      pose proof (length_print_chars k (String ":" (print x (String "}" rest)))).
      simpl in *. lia.
    + specialize (Hx (String "," (print_members ((k', y) :: l) rest))).
      pose proof (length_print_chars k
        (String ":" (print x (String "," (print_members ((k', y) :: l) rest))))).
      simpl in *. lia.
Qed.

Lemma parse_text_stringify v : parse_text (stringify v) = Some (serialised v).
Proof.
  unfold parse_text, stringify.
  rewrite parse_print; [done| |done].
  pose proof (length_print (serialised v) "") as Hlen. simpl in Hlen. lia.
Qed.

Lemma parse_text_empty : parse_text "" = None.
Proof. reflexivity. Qed.
End DemoFacts.

(** The concrete host meets the laws. *)
Global Instance demo_laws (quota : option nat) : HostLaws (host := Demo.host quota).
Proof.
  split.
  - apply DemoFacts.parse_text_stringify.
  - apply DemoFacts.parse_text_empty.
  - done.
Qed.

(** ** Running the store operations *)

Section StoreFacts.
Context {host : Host} {laws : HostLaws}.
Implicit Types (key text : string) (b : browser) (items : list value).
Implicit Types (validator : value → option (list value)).

Lemma getFromStorage_run key validator b :
  getFromStorage key validator b =
    match localStorage b !! key with
    | None => (Return [], b)
    | Some text =>
        if String.eqb text "" then (Return [], b)
        else match JSON_parse text ≫= validator with
             | Some data => (Return data, b)
             | None => (Return [], with_localStorage (delete key) b)
             end
    end.
Proof.
  unfold getFromStorage, try_catch, getItem, removeItem, parse, throw.
  unfold mbind, M_bind, mret, M_ret. simpl.
  destruct (localStorage b !! key) as [text|]; [|done].
  destruct (String.eqb text ""); [done|].
  destruct (JSON_parse text) as [v|]; simpl; [|done].
  by destruct (validator v).
Qed.

Lemma getFromStorage_returns key validator b :
  getFromStorage key validator b
  = (Return (stored key validator b), healed key validator b).
Proof.
  unfold stored, healed. rewrite getFromStorage_run.
  destruct (localStorage b !! key) as [text|]; [|done].
  destruct (String.eqb text ""); [done|].
  by destruct (JSON_parse text ≫= validator).
Qed.

Lemma saveToStorage_run key item validator b :
  saveToStorage key item validator b =
    let existingItems := stored key validator b in
    let b' := healed key validator b in
    if accepts b' key (item :: existingItems)
    then (Return (item :: existingItems), write key (item :: existingItems) b')
    else (Return [item], b').
Proof.
  unfold saveToStorage, try_catch, mbind, M_bind at 1.
  rewrite getFromStorage_returns. unfold accepts, write.
  unfold setItem, mbind, M_bind, mret, M_ret. simpl.
  by destruct (quota_allows _ _ _).
Qed.

Lemma removeFromStorage_run key index validator b :
  removeFromStorage key index validator b =
    let items := stored key validator b in
    let b' := healed key validator b in
    let newItems := slice items 0 index ++ slice_from items (index + 1) in
    if accepts b' key newItems
    then (Return newItems, write key newItems b')
    else getFromStorage key validator b'.
Proof.
  unfold removeFromStorage, try_catch, mbind, M_bind at 1.
  rewrite getFromStorage_returns. unfold accepts, write.
  unfold setItem, mbind, M_bind, mret, M_ret. simpl.
  by destruct (quota_allows _ _ _).
Qed.

Lemma JSON_stringify_nonempty v : JSON_stringify v ≠ "".
Proof.
  intros Hv. pose proof (JSON_parse_stringify v) as Hp.
  rewrite Hv, JSON_parse_empty in Hp. done.
Qed.

(** A list of finite values is written as it is. *)
Lemma serialised_finite items :
  Forall finite items → map serialised items = items.
Proof. induction 1 as [|x l Hx _ IH]; simpl; [done|]. by rewrite Hx, IH. Qed.

Lemma finite_VArr items : Forall finite items → finite (VArr items).
Proof. intros Hall. unfold finite. simpl. by rewrite serialised_finite. Qed.

(** A read after a write sees the validator's verdict on what
    [JSON.stringify] kept of the items. *)
Lemma getFromStorage_after_write key validator items b :
  getFromStorage key validator (write key items b)
  = match validator (VArr (map serialised items)) with
    | Some data => (Return data, write key items b)
    | None => (Return [], with_localStorage (delete key) (write key items b))
    end.
Proof.
  rewrite getFromStorage_run. unfold write. simpl.
  rewrite lookup_insert_eq.
  destruct (String.eqb_spec (JSON_stringify (VArr items)) "") as [He|_];
    [by apply JSON_stringify_nonempty in He|].
  by rewrite JSON_parse_stringify.
Qed.

(** Reading back what a write left under the key. *)
Lemma getFromStorage_written key validator items b :
  Forall finite items →
  validator (VArr items) = Some items →
  getFromStorage key validator (write key items b)
  = (Return items, write key items b).
Proof.
  intros Hfin Hv. rewrite getFromStorage_after_write.
  by rewrite serialised_finite, Hv.
Qed.

(** A second read returns what the first one returned and changes
    nothing. *)
Lemma healed_idemp key validator b :
  getFromStorage key validator (healed key validator b)
  = (Return (stored key validator b), healed key validator b).
Proof.
  unfold stored, healed. rewrite !getFromStorage_run.
  destruct (localStorage b !! key) as [text|] eqn:Hk; simpl; [|by rewrite Hk].
  destruct (String.eqb text "") eqn:He; simpl; [by rewrite Hk, He|].
  destruct (JSON_parse text ≫= validator) as [data|] eqn:Hp; simpl.
  - by rewrite Hk, He, Hp.
  - by rewrite lookup_delete_eq.
Qed.

Lemma unreadable_bind validator text :
  unreadable validator text → JSON_parse text ≫= validator = None.
Proof. by intros [->|(v & -> & Hv)]. Qed.

(** A read consults the validator on the stored text only. *)
Lemma getFromStorage_agree key validator validator' b :
  (∀ text, localStorage b !! key = Some text →
     JSON_parse text ≫= validator = JSON_parse text ≫= validator') →
  getFromStorage key validator b = getFromStorage key validator' b.
Proof.
  intros Hag. rewrite !getFromStorage_run.
  destruct (localStorage b !! key) as [text|]; [|done].
  by rewrite (Hag text).
Qed.
End StoreFacts.

(** ** [slice] on the index ranges that matter for removal *)

Section Slice.
Context {A : Type}.
Implicit Types (l : list A) (i : Z).

Lemma slice_0 l i : 0 ≤ i → slice l 0 i = take (Z.to_nat i) l.
Proof.
  intros Hi. unfold slice, relative_index.
  destruct (Z.ltb_spec i 0) as [|_]; [lia|].
  change (0 <? 0) with false. cbv iota.
  rewrite (Z.min_l 0) by lia. change (Z.to_nat 0) with O. rewrite drop_0.
  destruct (Z.le_ge_cases i (Z.of_nat (length l))).
  - rewrite Z.min_l by done. f_equal. lia.
  - rewrite Z.min_r by done. rewrite !take_ge by lia. done.
Qed.

Lemma slice_from_nonneg l i : 0 ≤ i → slice_from l i = drop (Z.to_nat i) l.
Proof.
  intros Hi. unfold slice_from, slice, relative_index.
  destruct (Z.ltb_spec i 0) as [|_]; [lia|].
  destruct (Z.ltb_spec (Z.of_nat (length l)) 0) as [|_]; [lia|].
  rewrite Z.min_id.
  destruct (Z.le_ge_cases i (Z.of_nat (length l))).
  - rewrite Z.min_l by done. apply take_ge. rewrite length_drop. lia.
  - rewrite Z.min_r by done. rewrite Nat2Z.id, drop_all, drop_ge by lia.
    by rewrite take_nil.
Qed.

(** Removal at an index that is not negative. *)
Lemma splice_nonneg l i :
  0 ≤ i → slice l 0 i ++ slice_from l (i + 1) = delete (Z.to_nat i) l.
Proof.
  intros Hi. rewrite slice_0, slice_from_nonneg by lia.
  rewrite delete_take_drop. by rewrite Z2Nat.inj_add by lia; rewrite Nat.add_1_r.
Qed.

(** Removal at an index past the end changes nothing. *)
Lemma splice_beyond l i :
  Z.of_nat (length l) ≤ i → slice l 0 i ++ slice_from l (i + 1) = l.
Proof.
  intros Hi. rewrite slice_0, slice_from_nonneg by lia.
  rewrite take_ge, drop_ge by lia. apply app_nil_r.
Qed.
End Slice.

(** ** Array validators *)

Section ArrayFacts.
Context {host : Host} {laws : HostLaws} (elem : schema).
Hypothesis elem_stable : ∀ v r, elem v = Some r → elem (Some r) = Some r.
Implicit Types (key : string) (b : browser) (items : list value).

Lemma z_array_conforms v items :
  z_array elem v = Some items → Forall (conforms elem) items.
Proof.
  destruct v; try done. simpl. intros Hm%mapM_Some_1.
  induction Hm; constructor; unfold conforms; eauto.
Qed.

Lemma z_array_accepts items :
  Forall (conforms elem) items → z_array elem (VArr items) = Some items.
Proof.
  intros Hall. simpl. apply mapM_Some_2.
  induction Hall; constructor; eauto.
Qed.

Lemma z_array_rejects items :
  Exists (λ r, elem (Some r) = None) items → z_array elem (VArr items) = None.
Proof. intros Hex. simpl. by apply mapM_None_2. Qed.

(** Whatever a read returns conforms to the element schema. *)
Lemma stored_conforms key b :
  Forall (conforms elem) (stored key (z_array elem) b).
Proof.
  unfold stored. rewrite getFromStorage_run.
  destruct (localStorage b !! key) as [text|]; [|by constructor].
  destruct (String.eqb text ""); [by constructor|].
  destruct (JSON_parse text) as [v|]; simpl; [|by constructor].
  destruct (z_array elem v) eqn:Hv; [|by constructor].
  by eapply z_array_conforms.
Qed.

Lemma stored_written key items b :
  Forall (conforms elem) items →
  Forall finite items →
  getFromStorage key (z_array elem) (write key items b)
  = (Return items, write key items b).
Proof. intros. by apply getFromStorage_written; [|apply z_array_accepts]. Qed.

Lemma stored_write key items b :
  Forall (conforms elem) items →
  Forall finite items →
  stored key (z_array elem) (write key items b) = items.
Proof. intros Hall Hfin. unfold stored. by rewrite stored_written. Qed.
End ArrayFacts.

(** ** The two record schemas *)

Section Schemas.
Context {host : Host}.

Lemma screenshotItem_Some v r :
  screenshotItem v = Some r →
  ∃ input imageData createdAt,
    r = ScreenshotItem input imageData createdAt
    ∧ is_url input = true ∧ is_datetime createdAt = true.
Proof.
  destruct v as [[| | | | |props]|]; try done.
  unfold screenshotItem. simpl.
  destruct (own_property props "input") as [[| | |input| |]|]; try done. simpl.
  destruct (is_url input) eqn:Hu; [|done]. simpl.
  destruct (own_property props "imageData") as [[| | |imageData| |]|]; try done. simpl.
  destruct (own_property props "createdAt") as [[| | |createdAt| |]|]; try done. simpl.
  destruct (is_datetime createdAt) eqn:Hd; [|done]. simpl.
  intros [= <-]. by eauto 10.
Qed.

Lemma screenshotItem_conforms input imageData createdAt :
  is_url input = true → is_datetime createdAt = true →
  conforms screenshotItem (ScreenshotItem input imageData createdAt).
Proof.
  intros Hu Hd. unfold conforms, screenshotItem. simpl. by rewrite Hu, Hd.
Qed.

Lemma screenshotItem_stable v r :
  screenshotItem v = Some r → screenshotItem (Some r) = Some r.
Proof.
  intros (input & imageData & createdAt & -> & Hu & Hd)%screenshotItem_Some.
  by apply screenshotItem_conforms.
Qed.

Lemma ageDetectionItem_Some v r :
  ageDetectionItem v = Some r →
  ∃ age predictTime imageData createdAt,
    r = AgeDetectionHistoryItem age predictTime imageData createdAt
    ∧ is_datetime createdAt = true.
Proof.
  destruct v as [[| | | | |props]|]; try done.
  unfold ageDetectionItem. simpl.
  destruct (own_property props "age") as [[| | |age| |]|]; try done. simpl.
  destruct (own_property props "predictTime") as [[| |predictTime| | |]|];
    try done. simpl.
  destruct (own_property props "imageData") as [[| | |imageData| |]|]; try done. simpl.
  destruct (own_property props "createdAt") as [[| | |createdAt| |]|]; try done. simpl.
  destruct (is_datetime createdAt) eqn:Hd; [|done]. simpl.
  intros [= <-]. by eauto 10.
Qed.

Lemma ageDetectionItem_conforms age predictTime imageData createdAt :
  is_datetime createdAt = true →
  conforms ageDetectionItem
    (AgeDetectionHistoryItem age predictTime imageData createdAt).
Proof. intros Hd. unfold conforms, ageDetectionItem. simpl. by rewrite Hd. Qed.

Lemma ageDetectionItem_stable v r :
  ageDetectionItem v = Some r → ageDetectionItem (Some r) = Some r.
Proof.
  intros (age & predictTime & imageData & createdAt & -> & Hd)%ageDetectionItem_Some.
  by apply ageDetectionItem_conforms.
Qed.

(** A screenshot record holds strings only; an age-detection record is
    finite when its prediction time is. *)
Lemma screenshotItem_finite v r : screenshotItem v = Some r → finite r.
Proof. by intros (input & imageData & createdAt & -> & _)%screenshotItem_Some. Qed.

Lemma stored_screenshots_finite key b :
  Forall finite (stored key screenshotValidator b).
Proof.
  eapply Forall_impl; [apply (stored_conforms _ screenshotItem_stable)|].
  intros r Hr. by apply (screenshotItem_finite (Some r)).
Qed.

Lemma AgeDetectionHistoryItem_finite age predictTime imageData createdAt :
  finite_number predictTime = true →
  finite (AgeDetectionHistoryItem age predictTime imageData createdAt).
Proof. intros Hn. unfold finite. simpl. by rewrite Hn. Qed.

(** A record that one of the two schemas rejects is still rejected
    when [null] stands for its numbers that are not finite. *)
Lemma own_property_serialised props k :
  own_property (map (λ p, (p.1, serialised p.2)) props) k
  = serialised <$> own_property props k.
Proof.
  induction props as [|[k' x] props IH]; simpl; [done|].
  by destruct (String.eqb k' k).
Qed.

Lemma z_shape_serialised shape props :
  Forall (λ field, ∀ v, field.2 v = None → field.2 (serialised <$> v) = None)
    shape →
  z_shape shape props = None →
  z_shape shape (map (λ p, (p.1, serialised p.2)) props) = None.
Proof.
  induction 1 as [|[k check] shape Hcheck _ IH]; simpl; [done|].
  rewrite own_property_serialised.
  destruct (check (own_property props k)) as [x|] eqn:Hx; simpl.
  - destruct (z_shape shape props); [done|]. intros _. rewrite IH by done.
    by destruct (check (serialised <$> own_property props k)).
  - intros _. simpl in Hcheck. by rewrite (Hcheck _ Hx).
Qed.

Lemma z_object_serialised shape r :
  Forall (λ field, ∀ v, field.2 v = None → field.2 (serialised <$> v) = None)
    shape →
  z_object shape (Some r) = None →
  z_object shape (Some (serialised r)) = None.
Proof.
  intros Hshape. destruct r as [| |n| | |props]; simpl; try done.
  - by destruct (finite_number n).
  - destruct (z_shape shape props) eqn:Hs; [done|]. intros _.
    by rewrite z_shape_serialised.
Qed.

Lemma z_string_serialised v :
  z_string v = None → z_string (serialised <$> v) = None.
Proof.
  destruct v as [[| |n| | |]|]; simpl; try done. by destruct (finite_number n).
Qed.

Lemma z_number_serialised v :
  z_number v = None → z_number (serialised <$> v) = None.
Proof. by destruct v as [[| |n| | |]|]. Qed.

Lemma z_string_refine_serialised check v :
  z_string_refine check v = None →
  z_string_refine check (serialised <$> v) = None.
Proof.
  destruct v as [[| |n| | |]|]; simpl; try done. by destruct (finite_number n).
Qed.

Lemma screenshotItem_serialised r :
  screenshotItem (Some r) = None → screenshotItem (Some (serialised r)) = None.
Proof.
  apply z_object_serialised. repeat constructor; simpl;
    auto using z_string_serialised, z_string_refine_serialised.
Qed.

Lemma ageDetectionItem_serialised r :
  ageDetectionItem (Some r) = None →
  ageDetectionItem (Some (serialised r)) = None.
Proof.
  apply z_object_serialised. repeat constructor; simpl;
    auto using z_string_serialised, z_number_serialised,
      z_string_refine_serialised.
Qed.
End Schemas.

(** ** Running the remote calls and the pages *)

Lemma truthy_false (v : jsval) :
  truthy v = false ↔
  v = None ∨ v = Some VNull ∨ v = Some (VBool false) ∨ v = Some (VStr "")
  ∨ ∃ e, v = Some (VNum (Number 0 e)).
Proof.
  split.
  - destruct v as [[|[|]|[m e|negative]|s| |]|]; simpl; try done; eauto.
    + intros Hm%negb_false_iff%Z.eqb_eq. subst. eauto 10.
    + intros Hs%negb_false_iff%String.eqb_eq. subst. eauto 10.
  - intros [->|[->|[->|[->|[e ->]]]]]; done.
Qed.

(** For a string, truthy is non-empty. *)
Lemma truthy_VStr s : truthy (Some (VStr s)) = true ↔ s ≠ "".
Proof.
  simpl. rewrite negb_true_iff.
  destruct (String.eqb_spec s ""); naive_solver.
Qed.

Lemma get_property_field data k :
  data ≠ VNull → get_property (Some data) k = Return (field data k).
Proof. by destruct data. Qed.

Lemma is_string_field_not_null data k s :
  is_string (field data k) s = true → data ≠ VNull.
Proof. by destruct data. Qed.

Ltac run_page :=
  unfold try_catch, page_state, set_state, lift, in_browser, throw,
    toISOString_now;
  unfold mbind, M_bind, mret, M_ret; simpl.

Section RemoteFacts.
Context {host : Host} {web : Web}.

Lemma uploadImage_run file :
  uploadImage file =
    response ← fetch (upload_request file);
    if negb (ok response)
    then Throw (Error ("Upload failed: " ++ pretty (status response)))
    else
      data ← json response;
      match data with
      | VNull =>
          Throw (TypeError "Cannot read properties of null (reading 'status')")
      | _ =>
          if is_string (field data "status") "OK" && truthy (field data "result")
          then Return (field data "result")
          else Throw (Error "Upload failed: Invalid response")
      end.
Proof.
  unfold uploadImage, upload_request.
  destruct (fetch _) as [response|e]; simpl; [|done].
  destruct (ok response); simpl; [|done].
  destruct (json response) as [data|e]; simpl; [|done].
  destruct data; simpl; try done.
  destruct (is_string _ _); simpl; [|done].
  by destruct (truthy _).
Qed.

Lemma detectAge_run imageData imageUrl :
  AgeDetectionPage.detectAge imageData imageUrl =
    response ← fetch (detection_request imageUrl);
    if negb (ok response)
    then Throw (Error ("Detection failed: " ++ pretty (status response)))
    else
      data ← json response;
      match data with
      | VNull =>
          Throw (TypeError "Cannot read properties of null (reading 'status')")
      | _ =>
          if negb (is_string (field data "status") "succeeded")
             || truthy (field data "error")
          then Throw (Error (ToString
                 (if truthy (field data "error") then field data "error"
                  else Some (VStr "Detection failed"))))
          else if negb (truthy_text imageData)
          then Throw (Error "Image data is missing")
          else
            predict_time ← get_property (field data "metrics") "predict_time";
            Return {| AgeDetectionResult.age := field data "output";
                      AgeDetectionResult.predictTime := predict_time;
                      AgeDetectionResult.imageData := default "" imageData |}
      end.
Proof.
  unfold AgeDetectionPage.detectAge, detection_request.
  destruct (fetch _) as [response|e]; simpl; [|done].
  destruct (ok response); simpl; [|done].
  destruct (json response) as [data|e]; simpl; [|done].
  destruct data; simpl; try done;
    try (destruct imageData as [image|]; simpl; [|done];
         by destruct (String.eqb image "")).
  destruct (is_string _ _); simpl; [|done].
  destruct (truthy (own_property props "error")); simpl; [done|].
  destruct imageData as [image|]; simpl; [|done].
  by destruct (String.eqb image "").
Qed.

(** The remote part of a run fails when the upload it starts with fails,
    or when the detection fails. *)
Lemma remote_detection_Throw s file e :
  remote_detection s file = Throw e ↔
  (truthy (AgeDetectionPage.uploadedImageUrl s) = false
   ∧ uploadImage file = Throw e)
  ∨ ∃ imageUrl,
      (if truthy (AgeDetectionPage.uploadedImageUrl s)
       then AgeDetectionPage.uploadedImageUrl s = imageUrl
       else uploadImage file = Return imageUrl)
      ∧ AgeDetectionPage.detectAge (AgeDetectionPage.imageData s) imageUrl
        = Throw e.
Proof.
  unfold remote_detection.
  destruct (truthy (AgeDetectionPage.uploadedImageUrl s)); simpl.
  - split; [by eauto|]. by intros [[? _]|(imageUrl & <- & ?)].
  - destruct (uploadImage file) as [imageUrl|e']; simpl.
    + split; [by eauto|]. intros [[_ ?]|(? & ? & ?)]; by simplify_eq.
    + split; [intros [= ->]; by left|].
      intros [[_ ?]|(? & ? & ?)]; by simplify_eq.
Qed.

(** The storage and the history list after a run of [processImage]. *)
Lemma processImage_stores s b :
  let after := (AgeDetectionPage.processImage (s, b)).2 in
  (after.2, AgeDetectionPage.history after.1) =
    match AgeDetectionPage.file s with
    | Some file =>
        if truthy_text (AgeDetectionPage.imageData s) then
          match remote_detection s file with
          | Return res =>
              let saved := saveToStorage AGE_DETECTION_STORAGE_KEY
                             (AgeDetectionPage.historyItem res (clock b))
                             ageDetectionResultValidator b in
              (saved.2, match saved.1 with
                        | Return updatedHistory => updatedHistory
                        | Throw _ => AgeDetectionPage.history s
                        end)
          | Throw _ => (b, AgeDetectionPage.history s)
          end
        else (b, AgeDetectionPage.history s)
    | None => (b, AgeDetectionPage.history s)
    end.
Proof.
  unfold AgeDetectionPage.processImage, remote_detection.
  unfold AgeDetectionPage.setError, AgeDetectionPage.setProcessingState,
    AgeDetectionPage.setUploadedImageUrl, AgeDetectionPage.setHistory,
    AgeDetectionPage.setResult.
  run_page.
  destruct (AgeDetectionPage.file s) as [file|]; simpl; [|done].
  destruct (truthy_text (AgeDetectionPage.imageData s)); simpl; [|done].
  destruct (truthy (AgeDetectionPage.uploadedImageUrl s)); simpl.
  - destruct (AgeDetectionPage.detectAge _ _) as [res|e]; simpl; [|done].
    by destruct (saveToStorage _ _ _ b) as [[updated|e] b'].
  - destruct (uploadImage file) as [imageUrl|e]; simpl; [|done].
    destruct (AgeDetectionPage.detectAge _ _) as [res|e]; simpl; [|done].
    by destruct (saveToStorage _ _ _ b) as [[updated|e] b'].
Qed.

(** The same for a run of [captureScreenshot]. *)
Lemma captureScreenshot_stores s b :
  let after := (ScreenshotCapture.captureScreenshot (s, b)).2 in
  (after.2, ScreenshotCapture.items after.1) =
    if negb (ScreenshotCapture.isValidUrl s)
       || String.eqb (trim (ScreenshotCapture.apiKey s)) ""
    then (b, ScreenshotCapture.items s)
    else
      match remote_capture s with
      | Return imageData =>
          let saved := saveToStorage STORAGE_KEY
                         (object_literal
                            [("input", Some (VStr (ScreenshotCapture.url s)));
                             ("imageData", Some (VStr imageData));
                             ("createdAt", Some (VStr (clock b)))])
                         screenshotValidator b in
          (saved.2, match saved.1 with
                    | Return updatedItems => updatedItems
                    | Throw _ => ScreenshotCapture.items s
                    end)
      | Throw _ => (b, ScreenshotCapture.items s)
      end.
Proof.
  unfold ScreenshotCapture.captureScreenshot, remote_capture.
  unfold ScreenshotCapture.setError, ScreenshotCapture.setScreenshotState,
    ScreenshotCapture.setItems, ScreenshotCapture.setCurrentImageData.
  unfold capture_request.
  run_page.
  destruct (negb (ScreenshotCapture.isValidUrl s) || _); simpl; [done|].
  destruct (fetch _) as [response|e]; simpl; [|done].
  destruct (ok response); simpl; [|done].
  destruct (blob response) as [image|e]; simpl; [|done].
  destruct (blobToBase64 image) as [imageData|e]; simpl; [|done].
  by destruct (saveToStorage _ _ _ b) as [[updated|e] b'].
Qed.
End RemoteFacts.

(** * The properties of the store *)

Section StoreProperties.
Context {host : Host} {laws : HostLaws} (elem : schema).
Hypothesis elem_stable : ∀ v r, elem v = Some r → elem (Some r) = Some r.
Implicit Types (key : string) (b : browser) (r : value).

(** C1, as amended. Round trip of the store. Let the validator be an
    array schema whose element schema returns records that pass it
    unchanged (the two validators of the repository are such, see
    [screenshotItem_stable] and [ageDetectionItem_stable]). For every key,
    every browser state whose stored records hold finite numbers only,
    and every sequence of records that pass the schema unchanged (they
    have the fields of the schema and no others) and hold finite numbers
    only, appended one at a time with [saveToStorage], each write being
    taken by the storage: a read with [getFromStorage] afterwards returns
    exactly these records, the most recent first, in front of what the
    key held before (nothing, when the key was absent). *)
Theorem append_read_roundtrip key records b :
  Forall (conforms elem) records →
  Forall finite records →
  Forall finite (stored key (z_array elem) b) →
  all_written key (z_array elem) records b →
  (getFromStorage key (z_array elem)
     (append_all key (z_array elem) records b)).1
  = Return (rev records ++ stored key (z_array elem) b).
Proof.
  intros Hvalid. revert b.
  induction Hvalid as [|r rest Hr _ IH]; intros b Hfin Hold Hw; simpl in *.
  - by rewrite getFromStorage_returns.
  - destruct Hw as [Hacc Hw]. rewrite saveToStorage_run in Hw |- *.
    simpl in *. rewrite Hacc in Hw |- *. simpl in *.
    inversion_clear Hfin as [|? ? Hr' Hrest].
    assert (Hnow : stored key (z_array elem)
                     (write key (r :: stored key (z_array elem) b)
                        (healed key (z_array elem) b))
                   = r :: stored key (z_array elem) b).
    { apply stored_write; [|by constructor].
      constructor; [done|by apply stored_conforms]. }
    rewrite IH; [|done|rewrite Hnow; by constructor|done].
    by rewrite Hnow, <- app_assoc.
Qed.

(** C3, as amended. Remove excises exactly one element. For every key
    and browser state, with [items] the valid sequence a read returns:
    (1) for every index in range, when the storage takes the write,
    [removeFromStorage key index] returns [items] without the element at
    that index, the others unchanged and in order, and, when the stored
    records hold finite numbers only, a read afterwards returns the same
    sequence; when the stored records hold finite numbers only, (2)
    removing index 0 again and again, each write being taken, leaves the
    sequence without its first [n] elements after [n] removals, and (3)
    empty after as many removals as there were elements; (4) no removal
    throws: at every index the call returns a sequence. *)
Theorem remove_excises key b :
  let items := stored key (z_array elem) b in
  (∀ index : Z,
     0 ≤ index < Z.of_nat (length items) →
     let newItems := delete (Z.to_nat index) items in
     accepts (healed key (z_array elem) b) key newItems = true →
     ∃ b', removeFromStorage key index (z_array elem) b = (Return newItems, b')
           ∧ (Forall finite items →
              getFromStorage key (z_array elem) b' = (Return newItems, b')))
  ∧ (∀ n : nat,
       Forall finite items →
       all_removed key (z_array elem) n b →
       (getFromStorage key (z_array elem) (drain key (z_array elem) n b)).1
       = Return (drop n items))
  ∧ (Forall finite items →
     all_removed key (z_array elem) (length items) b →
       (getFromStorage key (z_array elem)
          (drain key (z_array elem) (length items) b)).1 = Return [])
  ∧ (∀ index : Z,
       ∃ newItems b',
         removeFromStorage key index (z_array elem) b = (Return newItems, b')).
Proof.
  assert (Hdrain : ∀ n b, Forall finite (stored key (z_array elem) b) →
    all_removed key (z_array elem) n b →
    (getFromStorage key (z_array elem) (drain key (z_array elem) n b)).1
    = Return (drop n (stored key (z_array elem) b))).
  { clear b. induction n as [|n IH]; intros b Hfin Hrm; simpl in *.
    - by rewrite getFromStorage_returns.
    - destruct Hrm as [Hacc Hrm]. rewrite removeFromStorage_run in Hrm |- *.
      simpl in *. rewrite splice_nonneg in Hrm |- * by lia.
      change (Z.to_nat 0) with O in *.
      replace (delete O (stored key (z_array elem) b))
        with (drop 1 (stored key (z_array elem) b)) in *
        by by destruct (stored _ _ _).
      rewrite Hacc in Hrm |- *. simpl in *.
      assert (Hnow : stored key (z_array elem)
                       (write key (drop 1 (stored key (z_array elem) b))
                          (healed key (z_array elem) b))
                     = drop 1 (stored key (z_array elem) b)).
      { apply stored_write; [|by apply Forall_drop].
        by apply Forall_drop, stored_conforms. }
      rewrite IH; [|rewrite Hnow; by apply Forall_drop|done].
      by rewrite Hnow, drop_drop. }
  intros items. split; [|split; [|split]].
  - intros index Hi newItems Hacc. eexists.
    rewrite removeFromStorage_run. simpl.
    rewrite splice_nonneg by lia. fold items. fold newItems. rewrite Hacc.
    split; [done|]. intros Hfin.
    apply stored_written; [|by apply Forall_delete].
    by apply Forall_delete, stored_conforms.
  - intros n. apply Hdrain.
  - intros Hfin Hrm. rewrite Hdrain by done. by rewrite drop_all.
  - intros index. rewrite removeFromStorage_run. simpl.
    destruct (accepts _ _ _); [by eauto|].
    rewrite getFromStorage_returns. by eauto.
Qed.

(** Removal at an index past the end, the write being taken, returns and
    persists the sequence as it was. *)
Lemma removeFromStorage_beyond key (index : Z) b :
  let items := stored key (z_array elem) b in
  Z.of_nat (length items) ≤ index →
  Forall finite items →
  accepts (healed key (z_array elem) b) key items = true →
  ∃ b', removeFromStorage key index (z_array elem) b = (Return items, b')
        ∧ getFromStorage key (z_array elem) b' = (Return items, b').
Proof.
  intros items Hi Hfin Hacc. eexists.
  rewrite removeFromStorage_run. simpl.
  rewrite splice_beyond by done. fold items. rewrite Hacc.
  split; [done|]. by apply stored_written; [apply stored_conforms|].
Qed.

(** The element schema of the next property rejects a record also after
    [JSON.stringify] has written [null] for its numbers that are not
    finite (the two schemas of the repository do, see
    [screenshotItem_serialised] and [ageDetectionItem_serialised]). *)
Hypothesis elem_serialised :
  ∀ r, elem (Some r) = None → elem (Some (serialised r)) = None.

(** C8. An invalid record is never observable via a read. For every
    record [r] that fails the element schema, after
    [saveToStorage key r]: (1) no later read of the key, the first or any
    one after it, returns a sequence that contains [r]; (2) when the
    storage took the write, the first read finds the stored collection
    invalid, removes the entry and returns the empty sequence (the whole
    collection is discarded on retrieval, the records stored before [r]
    with it). The element schema is one that rejects a record also as
    [JSON.stringify] writes it, as both schemas of the repository do. *)
Theorem invalid_never_read key r b :
  elem (Some r) = None →
  let b1 := (saveToStorage key r (z_array elem) b).2 in
  (∀ n : nat,
     r ∉ stored key (z_array elem) (Nat.iter n (healed key (z_array elem)) b1))
  ∧ (accepts (healed key (z_array elem) b) key
       (r :: stored key (z_array elem) b) = true →
     getFromStorage key (z_array elem) b1
     = (Return [], with_localStorage (delete key) b1)).
Proof.
  intros Hr b1. split.
  - intros n Hin.
    pose proof (stored_conforms elem elem_stable key
      (Nat.iter n (healed key (z_array elem)) b1)) as Hall.
    rewrite Forall_forall in Hall. apply Hall in Hin.
    unfold conforms in Hin. congruence.
  - intros Hacc. subst b1. rewrite saveToStorage_run. simpl. rewrite Hacc. simpl.
    rewrite getFromStorage_after_write.
    change (map serialised (r :: stored key (z_array elem) b))
      with (serialised r :: map serialised (stored key (z_array elem) b)).
    rewrite z_array_rejects; [done|]. constructor. by apply elem_serialised.
Qed.
End StoreProperties.

Section AnyValidator.
Context {host : Host}.
Implicit Types (key text : string) (b : browser) (r item : value).
Implicit Types (validator : value → option (list value)).

(** C2, as amended. Self-healing read. For every key, validator and
    browser state, with [b'] the state a read leaves behind: (1) when the
    key is absent, [getFromStorage] returns the empty sequence and changes
    nothing; (2) when the stored text is not parseable as JSON, or parses
    to a value the validator rejects, [getFromStorage] returns the empty
    sequence, it has deleted the entry if the text is not the empty
    string, and a second read returns the empty sequence again and
    changes nothing more; (3) for an array validator, a stored array with
    a single element that fails the element schema is rejected as a
    whole. *)
Theorem getFromStorage_self_heals key validator b :
  let b' := healed key validator b in
  (localStorage b !! key = None →
     getFromStorage key validator b = (Return [], b))
  ∧ (∀ text,
       localStorage b !! key = Some text →
       unreadable validator text →
       (getFromStorage key validator b).1 = Return []
       ∧ (text ≠ "" → b' = with_localStorage (delete key) b)
       ∧ getFromStorage key validator b' = (Return [], b'))
  ∧ (∀ elem text items,
       JSON_parse text = Some (VArr items) →
       Exists (λ r, elem (Some r) = None) items →
       unreadable (z_array elem) text).
Proof.
  intros b'. split; [|split].
  - intros Hk. rewrite getFromStorage_run. by rewrite Hk.
  - intros text Hk Hbad%unreadable_bind.
    assert (Hfst : (getFromStorage key validator b).1 = Return []).
    { rewrite getFromStorage_run, Hk, Hbad. by destruct (String.eqb text ""). }
    split; [done|]. split.
    + intros Hne. subst b'. unfold healed.
      rewrite getFromStorage_run, Hk, Hbad.
      by destruct (String.eqb_spec text "").
    + subst b'. rewrite healed_idemp. unfold stored. by rewrite Hfst.
  - intros elem text items Hp Hex. right. exists (VArr items).
    split; [done|]. simpl. by apply mapM_None_2.
Qed.

(** C7. Write-failure fallback of append. For every key, record,
    validator and browser state: (1) if [localStorage.setItem] refuses the
    write, [saveToStorage] returns the one-element sequence holding the
    new record, and the storage is as the internal read left it; (2) in
    every case [saveToStorage] returns a sequence: no exception reaches
    the caller. *)
Theorem saveToStorage_write_failure key item validator b :
  (accepts (healed key validator b) key (item :: stored key validator b) = false →
   saveToStorage key item validator b = (Return [item], healed key validator b))
  ∧ ∃ items b', saveToStorage key item validator b = (Return items, b').
Proof.
  rewrite saveToStorage_run. simpl. split.
  - by intros ->.
  - destruct (accepts _ _ _); eauto.
Qed.

(** C10. Append does not validate the record it is given. For every
    record [r], valid or not, every key, validator and browser state:
    (1) the sequence [saveToStorage] returns has [r] at its head; (2) when
    the storage takes the write, the returned sequence is [r] in front of
    what the internal read returned, and it is this sequence that is
    persisted under the key; (3) the validator is consulted on the text
    stored before the call and on nothing else: two validators that agree
    on that text give the same result and the same storage, whatever they
    say about [r]. *)
Theorem saveToStorage_does_not_validate key r validator b :
  let existingItems := stored key validator b in
  (∃ tail, (saveToStorage key r validator b).1 = Return (r :: tail))
  ∧ (accepts (healed key validator b) key (r :: existingItems) = true →
     saveToStorage key r validator b
     = (Return (r :: existingItems),
        write key (r :: existingItems) (healed key validator b))
     ∧ localStorage (saveToStorage key r validator b).2 !! key
       = Some (JSON_stringify (VArr (r :: existingItems))))
  ∧ (∀ validator',
       (∀ text, localStorage b !! key = Some text →
          JSON_parse text ≫= validator = JSON_parse text ≫= validator') →
       saveToStorage key r validator' b = saveToStorage key r validator b).
Proof.
  intros existingItems. split; [|split].
  - rewrite saveToStorage_run. simpl. destruct (accepts _ _ _); eauto.
  - intros Hacc. rewrite saveToStorage_run. simpl. fold existingItems.
    rewrite Hacc. split; [done|]. simpl. apply lookup_insert_eq.
  - intros validator' Hag. rewrite !saveToStorage_run.
    unfold stored, healed. by rewrite (getFromStorage_agree key validator validator' b).
Qed.
End AnyValidator.

(** * The properties of the remote calls and of the pages *)

Section RemoteProperties.
Context {host : Host} {laws : HostLaws} {web : Web}.

(** C4. Upload flow contract. For every file and every response of the
    server to the upload request: (1) [uploadImage] returns a value
    exactly when the HTTP status is a success status, the body is JSON
    whose [status] field is the string [OK] and whose [result] field is
    truthy (for a string: not empty), and the value it returns is that
    [result] field; in every other case it throws: (2) an error carrying
    the HTTP status code when the status is not a success status, (3) the
    error [Upload failed: Invalid response] when the body has another
    [status] or a missing or empty [result], (4, 5) the error of reading
    the body when the body is [null] or is not JSON. *)
Theorem uploadImage_contract file response :
  fetch (upload_request file) = Return response →
  (∀ result,
     uploadImage file = Return result ↔
     ok response = true
     ∧ ∃ data, json response = Return data
               ∧ is_string (field data "status") "OK" = true
               ∧ truthy (field data "result") = true
               ∧ result = field data "result")
  ∧ (ok response = false →
     uploadImage file
     = Throw (Error ("Upload failed: " ++ pretty (status response))))
  ∧ (∀ data,
       ok response = true → json response = Return data → data ≠ VNull →
       is_string (field data "status") "OK" && truthy (field data "result")
       = false →
       uploadImage file = Throw (Error "Upload failed: Invalid response"))
  ∧ (ok response = true → json response = Return VNull →
     uploadImage file
     = Throw (TypeError "Cannot read properties of null (reading 'status')"))
  ∧ (∀ e, ok response = true → json response = Throw e →
       uploadImage file = Throw e).
Proof.
  intros Hfetch. rewrite uploadImage_run, Hfetch. simpl.
  split; [|split; [|split; [|split]]].
  - intros result. split.
    + destruct (ok response); simpl; [|done].
      destruct (json response) as [data|e]; simpl; [|done].
      intros Hres. split; [done|]. exists data. split; [done|].
      destruct data; try done;
        destruct (is_string _ _); simpl in *; try done;
        destruct (truthy _) eqn:?; simpl in *; try done; naive_solver.
    + intros (-> & data & -> & Hs & Ht & ->). simpl.
      pose proof (is_string_field_not_null _ _ _ Hs).
      rewrite Hs, Ht. by destruct data.
  - by intros ->.
  - intros data -> -> Hd Hinv. simpl.
    destruct data; try done; simpl in *; by rewrite ?Hinv.
  - by intros -> ->.
  - by intros e -> ->.
Qed.

(** C5, as amended. Inference flow contract. For every captured image
    data, every remote image reference and every response of the server
    to the detection request: (1) [detectAge] returns a result exactly
    when the HTTP status is a success status, the body is JSON whose
    [status] field is the string [succeeded], whose [error] field is
    falsy (absent, [null], or also [false], zero or the empty string),
    and whose [metrics] field is present and not [null], and the page
    holds non-empty image data; the result is then [age] = the [output]
    field, [predictTime] = [metrics.predict_time], together with that
    image data. Otherwise it throws: (2) an error carrying the HTTP
    status when the status is not a success status; (3) when the body has
    another [status] or a truthy [error], an error carrying the remote
    error, or the message [Detection failed] when the body has no truthy
    [error]; (4) the error [Image data is missing] when the page holds no
    image data; (5) what [response.json()] rejects with, when it rejects;
    (6) the [TypeError] of reading [status] of [null] when the body is
    [null]; (7) the [TypeError] of reading [predict_time] of [undefined],
    respectively of [null], when the body passes the checks of (3) and
    (4) and its [metrics] field is missing, respectively [null]. *)
Theorem detectAge_contract imageData imageUrl response :
  fetch (detection_request imageUrl) = Return response →
  (∀ res,
     AgeDetectionPage.detectAge imageData imageUrl = Return res ↔
     ok response = true
     ∧ ∃ data metrics image,
         json response = Return data
         ∧ is_string (field data "status") "succeeded" = true
         ∧ truthy (field data "error") = false
         ∧ imageData = Some image ∧ image ≠ ""
         ∧ field data "metrics" = Some metrics ∧ metrics ≠ VNull
         ∧ res = {| AgeDetectionResult.age := field data "output";
                    AgeDetectionResult.predictTime := field metrics "predict_time";
                    AgeDetectionResult.imageData := image |})
  ∧ (ok response = false →
     AgeDetectionPage.detectAge imageData imageUrl
     = Throw (Error ("Detection failed: " ++ pretty (status response))))
  ∧ (∀ data,
       ok response = true → json response = Return data → data ≠ VNull →
       is_string (field data "status") "succeeded" = false
       ∨ truthy (field data "error") = true →
       AgeDetectionPage.detectAge imageData imageUrl
       = Throw (Error (if truthy (field data "error")
                       then ToString (field data "error")
                       else "Detection failed")))
  ∧ (∀ data,
       ok response = true → json response = Return data →
       is_string (field data "status") "succeeded" = true →
       truthy (field data "error") = false →
       truthy_text imageData = false →
       AgeDetectionPage.detectAge imageData imageUrl
       = Throw (Error "Image data is missing"))
  ∧ (∀ e,
       ok response = true → json response = Throw e →
       AgeDetectionPage.detectAge imageData imageUrl = Throw e)
  ∧ (ok response = true → json response = Return VNull →
     AgeDetectionPage.detectAge imageData imageUrl
     = Throw (TypeError "Cannot read properties of null (reading 'status')"))
  ∧ (∀ data,
       ok response = true → json response = Return data →
       is_string (field data "status") "succeeded" = true →
       truthy (field data "error") = false →
       truthy_text imageData = true →
       (field data "metrics" = None →
        AgeDetectionPage.detectAge imageData imageUrl
        = Throw (TypeError
            "Cannot read properties of undefined (reading 'predict_time')"))
       ∧ (field data "metrics" = Some VNull →
          AgeDetectionPage.detectAge imageData imageUrl
          = Throw (TypeError
              "Cannot read properties of null (reading 'predict_time')"))).
Proof.
  intros Hfetch. rewrite detectAge_run, Hfetch. simpl.
  split; [|split; [|split; [|split; [|split; [|split]]]]].
  - intros res. split.
    + destruct (ok response); simpl; [|done].
      destruct (json response) as [data|e]; simpl; [|done].
      destruct data as [| | | | |props]; try done; simpl.
      destruct (is_string _ _) eqn:Hs; simpl; [|done].
      destruct (truthy (own_property props "error")) eqn:He; simpl; [done|].
      destruct imageData as [image|]; simpl; [|done].
      destruct (String.eqb_spec image "") as [|Hi]; simpl; [done|].
      destruct (own_property props "metrics") as [metrics|] eqn:Hm; simpl; [|done].
      intros Hres. split; [done|]. exists (VObj props), metrics, image.
      simpl. rewrite Hs, He, Hm.
      destruct metrics; simpl in *; try done; naive_solver.
    + intros (-> & data & metrics & image & -> & Hs & He & -> & Hi & Hm & Hn & ->).
      simpl. pose proof (is_string_field_not_null _ _ _ Hs).
      rewrite Hs, He, Hm. simpl.
      destruct (String.eqb_spec image "") as [|_]; [done|]. simpl.
      by destruct data, metrics.
  - by intros ->.
  - intros data -> -> Hd Hfail. simpl.
    assert (negb (is_string (field data "status") "succeeded")
            || truthy (field data "error") = true) as ->.
    { destruct Hfail as [->| ->]; [done|]. by rewrite orb_true_r. }
    destruct (truthy (field data "error")); [by destruct data|].
    rewrite ToString_string. by destruct data.
  - intros data -> -> Hs He Hi. simpl.
    pose proof (is_string_field_not_null _ _ _ Hs).
    rewrite Hs, He, Hi. by destruct data.
  - by intros e -> ->.
  - by intros -> ->.
  - intros data -> -> Hs He Hi. simpl.
    pose proof (is_string_field_not_null _ _ _ Hs).
    rewrite Hs, He, Hi. simpl. split; intros ->; by destruct data.
Qed.

(** C6. Atomicity on remote failure. For every run of [processImage] and
    every run of [captureScreenshot], from every page state and browser
    state: (1) if the upload or the inference, respectively the capture
    call or the encoding of its image, fails, the browser storage after
    the run is exactly what it was before, and so is the history list of
    the page; (2) if the storage has changed, the remote calls of the run
    had succeeded. *)
Theorem no_record_without_remote_success :
  (∀ (s : AgeDetectionPage.state) (b : browser),
     let s' := (AgeDetectionPage.processImage (s, b)).2.1 in
     let b' := (AgeDetectionPage.processImage (s, b)).2.2 in
     (∀ file e,
        AgeDetectionPage.file s = Some file →
        remote_detection s file = Throw e →
        b' = b ∧ AgeDetectionPage.history s' = AgeDetectionPage.history s)
     ∧ (b' ≠ b →
        ∃ file res,
          AgeDetectionPage.file s = Some file
          ∧ remote_detection s file = Return res))
  ∧ (∀ (s : ScreenshotCapture.state) (b : browser),
       let s' := (ScreenshotCapture.captureScreenshot (s, b)).2.1 in
       let b' := (ScreenshotCapture.captureScreenshot (s, b)).2.2 in
       (∀ e, remote_capture s = Throw e →
             b' = b ∧ ScreenshotCapture.items s' = ScreenshotCapture.items s)
       ∧ (b' ≠ b → ∃ imageData, remote_capture s = Return imageData)).
Proof.
  split.
  - intros s b s' b'. pose proof (processImage_stores s b) as Hrun.
    simpl in Hrun. fold s' b' in Hrun. clearbody s' b'. split.
    + intros file e Hfile Hfail. rewrite Hfile, Hfail in Hrun.
      destruct (truthy_text _); by simplify_eq.
    + intros Hne. destruct (AgeDetectionPage.file s) as [file|]; [|by simplify_eq].
      destruct (truthy_text _); [|by simplify_eq].
      destruct (remote_detection s file) as [res|e] eqn:Hrem;
        [eauto|by simplify_eq].
  - intros s b s' b'. pose proof (captureScreenshot_stores s b) as Hrun.
    simpl in Hrun. fold s' b' in Hrun. clearbody s' b'. split.
    + intros e Hfail. rewrite Hfail in Hrun.
      destruct (_ || _); by simplify_eq.
    + intros Hne. destruct (_ || _); [by simplify_eq|].
      destruct (remote_capture s) as [imageData|e] eqn:Hrem;
        [eauto|by simplify_eq].
Qed.
End RemoteProperties.

(** * Further properties of the store and of the pages *)

(** ** Removal at an index counted from the end *)
Section SliceEnds.
Context {A : Type}.
Implicit Types l : list A.

Lemma slice_0_negative l i :
  i < 0 → slice l 0 i = take (Z.to_nat (Z.of_nat (length l) + i)) l.
Proof.
  intros Hi. unfold slice, relative_index.
  destruct (Z.ltb_spec i 0) as [_|]; [|lia].
  change (0 <? 0) with false. cbv iota.
  rewrite (Z.min_l 0) by lia. change (Z.to_nat 0) with O. rewrite drop_0.
  f_equal. lia.
Qed.

Lemma slice_from_negative l i :
  i < 0 → slice_from l i = drop (Z.to_nat (Z.of_nat (length l) + i)) l.
Proof.
  intros Hi. unfold slice_from, slice, relative_index.
  destruct (Z.ltb_spec i 0) as [_|]; [|lia].
  destruct (Z.ltb_spec (Z.of_nat (length l)) 0) as [|_]; [lia|].
  rewrite Z.min_id. rewrite take_ge by (rewrite length_drop; lia).
  f_equal. lia.
Qed.

Lemma splice_last l :
  slice l 0 (-1) ++ slice_from l (-1 + 1) = take (length l - 1) l ++ l.
Proof.
  rewrite slice_0_negative by lia. simpl.
  rewrite slice_from_nonneg by lia. simpl. rewrite drop_0. do 2 f_equal. lia.
Qed.

Lemma splice_from_end l i :
  - Z.of_nat (length l) ≤ i < -1 →
  slice l 0 i ++ slice_from l (i + 1)
  = delete (Z.to_nat (Z.of_nat (length l) + i)) l.
Proof.
  intros Hi. rewrite slice_0_negative, slice_from_negative by lia.
  rewrite delete_take_drop.
  assert (Z.to_nat (Z.of_nat (length l) + (i + 1))
          = S (Z.to_nat (Z.of_nat (length l) + i))) as -> by lia.
  done.
Qed.

Lemma splice_before l i :
  i < - Z.of_nat (length l) → slice l 0 i ++ slice_from l (i + 1) = l.
Proof.
  intros Hi. destruct (Z.ltb_spec (i + 1) 0).
  - rewrite slice_0_negative, slice_from_negative by lia.
    replace (Z.to_nat (Z.of_nat (length l) + i)) with O by lia.
    replace (Z.to_nat (Z.of_nat (length l) + (i + 1))) with O by lia.
    by rewrite take_0, drop_0.
  - destruct l; [|simpl in Hi; lia].
    rewrite slice_0_negative, slice_from_nonneg by lia.
    by rewrite take_nil, drop_nil.
Qed.

End SliceEnds.

(** ** The store, for any validator *)
Section StoreBehaviour.
Context {host : Host} {laws : HostLaws}.

Lemma getFromStorage_other_key key key' validator b :
  key' ≠ key →
  localStorage (healed key validator b) !! key' = localStorage b !! key'.
Proof.
  intros Hne. unfold healed. rewrite getFromStorage_run.
  destruct (localStorage b !! key) as [text|]; [|done].
  destruct (String.eqb text ""); [done|].
  destruct (JSON_parse text ≫= validator); [done|]. simpl.
  by rewrite lookup_delete_ne.
Qed.

Lemma stored_depends_on_entry key validator b b' :
  localStorage b' !! key = localStorage b !! key →
  stored key validator b' = stored key validator b.
Proof.
  intros Heq. unfold stored. rewrite !getFromStorage_run, Heq.
  destruct (localStorage b !! key) as [text|]; [|done].
  destruct (String.eqb text ""); [done|].
  by destruct (JSON_parse text ≫= validator).
Qed.

Lemma saveToStorage_returns key item validator b :
  ∃ items, saveToStorage key item validator b
           = (Return items, (saveToStorage key item validator b).2).
Proof.
  rewrite saveToStorage_run. cbv zeta. destruct (accepts _ _ _); by eauto.
Qed.

(** X1. The three store operations touch the entry of their own key
    only: after a read, an append or a removal under [key], every other
    key of the storage holds what it held before, and so a read of
    another key, with any validator, returns what it returned before. *)
Theorem store_operations_keep_other_keys key key' validator item index b :
  key' ≠ key →
  let after_read := (getFromStorage key validator b).2 in
  let after_save := (saveToStorage key item validator b).2 in
  let after_remove := (removeFromStorage key index validator b).2 in
  (localStorage after_read !! key' = localStorage b !! key'
   ∧ localStorage after_save !! key' = localStorage b !! key'
   ∧ localStorage after_remove !! key' = localStorage b !! key')
  ∧ ∀ validator',
      stored key' validator' after_read = stored key' validator' b
      ∧ stored key' validator' after_save = stored key' validator' b
      ∧ stored key' validator' after_remove = stored key' validator' b.
Proof.
  intros Hne after_read after_save after_remove.
  assert (Hread : localStorage after_read !! key' = localStorage b !! key')
    by apply (getFromStorage_other_key key key' validator b Hne).
  assert (Hsave : localStorage after_save !! key' = localStorage b !! key').
  { subst after_save. rewrite saveToStorage_run. cbv zeta.
    destruct (accepts _ _ _); simpl; [rewrite lookup_insert_ne by done|];
      apply (getFromStorage_other_key key key' validator b Hne). }
  assert (Hremove : localStorage after_remove !! key' = localStorage b !! key').
  { subst after_remove. rewrite removeFromStorage_run. cbv zeta.
    destruct (accepts _ _ _); simpl.
    - rewrite lookup_insert_ne by done.
      apply (getFromStorage_other_key key key' validator b Hne).
    - rewrite healed_idemp. simpl.
      apply (getFromStorage_other_key key key' validator b Hne). }
  split; [done|]. intros validator'.
  repeat split; by apply stored_depends_on_entry.
Qed.

(** X2. A read is idempotent and never writes. Reading again what a
    read left behind returns the same sequence and changes nothing; the
    only change a read ever makes is to delete the entry of its key, and
    then it returns the empty sequence; stored text that parses and
    passes the validator is returned as validated, the storage
    untouched. *)
Theorem getFromStorage_idempotent key validator b :
  let items := stored key validator b in
  let b' := healed key validator b in
  getFromStorage key validator b' = (Return items, b')
  ∧ (b' = b ∨ (b' = with_localStorage (delete key) b ∧ items = []))
  ∧ (∀ text v data,
       localStorage b !! key = Some text → JSON_parse text = Some v →
       validator v = Some data → items = data ∧ b' = b).
Proof.
  intros items b'. split; [apply healed_idemp|].
  subst items b'. unfold stored, healed. rewrite getFromStorage_run.
  split.
  - destruct (localStorage b !! key) as [text|]; [|by left].
    destruct (String.eqb text ""); [by left|].
    destruct (JSON_parse text ≫= validator); [by left|by right].
  - intros text v data -> Hp Hv.
    destruct (String.eqb_spec text "") as [->|_];
      [by rewrite JSON_parse_empty in Hp|].
    by rewrite Hp; simpl; rewrite Hv.
Qed.

(** X3. When the storage refuses the write of a removal,
    [removeFromStorage] returns the sequence as it was before the
    removal, which is also what the key still reads as afterwards:
    nothing was removed. *)
Theorem removeFromStorage_write_failure key index validator b :
  let items := stored key validator b in
  let b' := healed key validator b in
  accepts b' key (slice items 0 index ++ slice_from items (index + 1)) = false →
  removeFromStorage key index validator b = (Return items, b')
  ∧ getFromStorage key validator b' = (Return items, b').
Proof.
  intros items b' Hacc. rewrite removeFromStorage_run. cbv zeta.
  fold items b'. rewrite Hacc. split; apply healed_idemp.
Qed.

(** X4. Removal at an index outside [0 .. length - 1], the write being
    taken. Past the end, and below minus the length, the sequence is
    written back and returned unchanged. An index from minus the length
    up to -2 counts from the end: the record at [length + index] is
    removed. Index -1 returns all records but the last followed by all
    the records. *)
Theorem removeFromStorage_outside_range key (index : Z) validator b :
  let items := stored key validator b in
  let n := Z.of_nat (length items) in
  let removal newItems :=
    accepts (healed key validator b) key newItems = true →
    removeFromStorage key index validator b
    = (Return newItems, write key newItems (healed key validator b)) in
  (n ≤ index → removal items)
  ∧ (index < - n → removal items)
  ∧ (- n ≤ index < -1 → removal (delete (Z.to_nat (n + index)) items))
  ∧ (index = -1 → removal (take (length items - 1) items ++ items)).
Proof.
  intros items n removal. subst removal. cbv beta.
  repeat split; intros Hi Hacc; rewrite removeFromStorage_run; cbv zeta;
    fold items.
  - rewrite splice_beyond by done. by rewrite Hacc.
  - rewrite splice_before by done. by rewrite Hacc.
  - rewrite splice_from_end by done. fold n. by rewrite Hacc.
  - subst index. rewrite splice_last. by rewrite Hacc.
Qed.
End StoreBehaviour.

(** ** The store, for an array validator *)
Section ArrayBehaviour.
Context {host : Host} {laws : HostLaws} (elem : schema).
Hypothesis elem_stable : ∀ v r, elem v = Some r → elem (Some r) = Some r.

(** When the stored records hold finite numbers only, what a removal
    returns is what the key reads as afterwards, for every index and
    whether or not the storage takes the write. *)
Lemma removeFromStorage_in_sync key index b :
  ∃ items b',
    removeFromStorage key index (z_array elem) b = (Return items, b')
    ∧ (Forall finite (stored key (z_array elem) b) →
       getFromStorage key (z_array elem) b' = (Return items, b')).
Proof.
  rewrite removeFromStorage_run. cbv zeta.
  destruct (accepts _ _ _) eqn:Hacc.
  - eexists _, _. split; [done|]. intros Hfin.
    pose proof (stored_conforms elem elem_stable key b) as Hitems.
    apply stored_written; apply Forall_app; unfold slice_from, slice;
      split; by apply Forall_take, Forall_drop.
  - rewrite healed_idemp. eexists _, _. split; [done|]. intros _.
    apply healed_idemp.
Qed.

(** X5. Appending a record and then removing index 0 undoes the append:
    for a record that passes the schema unchanged and holds finite
    numbers only, the stored records holding finite numbers only and
    both writes being taken, the removal returns the sequence the key
    read as before the append, and that is what the key reads as
    afterwards. *)
Theorem append_then_remove_head key r b :
  let items := stored key (z_array elem) b in
  let b1 := (saveToStorage key r (z_array elem) b).2 in
  conforms elem r →
  finite r →
  Forall finite items →
  accepts (healed key (z_array elem) b) key (r :: items) = true →
  accepts b1 key items = true →
  removeFromStorage key 0 (z_array elem) b1 = (Return items, write key items b1)
  ∧ getFromStorage key (z_array elem) (write key items b1)
    = (Return items, write key items b1).
Proof.
  intros items b1 Hr Hfin Hold Hacc1 Hacc2.
  pose proof (stored_conforms elem elem_stable key b) as Hitems.
  fold items in Hitems.
  assert (Hb1 : b1 = write key (r :: items) (healed key (z_array elem) b)).
  { subst b1. rewrite saveToStorage_run. cbv zeta. fold items.
    by rewrite Hacc1. }
  assert (Hread : getFromStorage key (z_array elem) b1
                  = (Return (r :: items), b1)).
  { rewrite Hb1. apply stored_written; by constructor. }
  assert (Hst : stored key (z_array elem) b1 = r :: items)
    by (unfold stored; by rewrite Hread).
  assert (Hh : healed key (z_array elem) b1 = b1)
    by (unfold healed; by rewrite Hread).
  rewrite removeFromStorage_run. cbv zeta.
  rewrite Hst, Hh, splice_nonneg by lia.
  change (delete (Z.to_nat 0) (r :: items)) with items.
  rewrite Hacc2. split; [done|]. by apply stored_written.
Qed.

(** X6. An append over an entry that cannot be read starts a new
    history: when the key holds text that [JSON.parse] or the validator
    rejects, appending a record that passes the schema unchanged and
    holds finite numbers only, the write being taken, returns that
    record alone, replaces the stored text by the serialisation of that
    one record, and this is what the key reads as afterwards. *)
Theorem saveToStorage_replaces_unreadable key r text b :
  localStorage b !! key = Some text →
  unreadable (z_array elem) text →
  conforms elem r →
  finite r →
  accepts (healed key (z_array elem) b) key [r] = true →
  let b' := (saveToStorage key r (z_array elem) b).2 in
  (saveToStorage key r (z_array elem) b).1 = Return [r]
  ∧ localStorage b' !! key = Some (JSON_stringify (VArr [r]))
  ∧ getFromStorage key (z_array elem) b' = (Return [r], b').
Proof.
  intros Hk Hbad Hr Hfin Hacc b'.
  assert (Hst : stored key (z_array elem) b = []).
  { unfold stored. rewrite getFromStorage_run, Hk.
    destruct (String.eqb text ""); [done|].
    by rewrite (unreadable_bind _ _ Hbad). }
  subst b'. rewrite saveToStorage_run. cbv zeta. rewrite Hst, Hacc. simpl.
  split; [done|]. split; [by rewrite lookup_insert_eq|].
  apply stored_written; by constructor.
Qed.
End ArrayBehaviour.

(** ** The two validators *)
Section SchemaBehaviour.
Context {host : Host} {laws : HostLaws}.

(** X7. The two record kinds do not mix: a record that the screenshot
    schema returns fails the age-detection schema and the other way
    round, so a non-empty sequence that one validator returns is
    rejected as a whole by the other. *)
Theorem record_kinds_disjoint :
  (∀ v r, screenshotItem v = Some r → ageDetectionItem (Some r) = None)
  ∧ (∀ v r, ageDetectionItem v = Some r → screenshotItem (Some r) = None)
  ∧ (∀ v r items,
       screenshotValidator v = Some (r :: items) →
       ageDetectionResultValidator (VArr (r :: items)) = None)
  ∧ (∀ v r items,
       ageDetectionResultValidator v = Some (r :: items) →
       screenshotValidator (VArr (r :: items)) = None).
Proof.
  assert (H1 : ∀ v r, screenshotItem v = Some r →
                      ageDetectionItem (Some r) = None).
  { by intros v r (input & imageData & createdAt & -> & _)%screenshotItem_Some. }
  assert (H2 : ∀ v r, ageDetectionItem v = Some r →
                      screenshotItem (Some r) = None).
  { by intros v r (a & p & i & c & -> & _)%ageDetectionItem_Some. }
  repeat split; [done|done| |].
  - intros v r items Hv. apply z_array_rejects. constructor.
    apply (z_array_conforms _ screenshotItem_stable) in Hv.
    inversion_clear Hv as [|? ? Hr _]. by apply (H1 (Some r)).
  - intros v r items Hv. apply z_array_rejects. constructor.
    apply (z_array_conforms _ ageDetectionItem_stable) in Hv.
    inversion_clear Hv as [|? ? Hr _]. by apply (H2 (Some r)).
Qed.

(** X8. Whatever the storage holds, every record a read returns has
    exactly the fields of its kind: under the screenshot validator an
    [input] that is a URL, an [imageData] string and a [createdAt]
    date-time and nothing else; under the age-detection validator an
    [age] string, a [predictTime] number, an [imageData] string and a
    [createdAt] date-time and nothing else. *)
Theorem read_records_are_typed key b :
  Forall (λ r, ∃ input imageData createdAt,
            r = ScreenshotItem input imageData createdAt
            ∧ is_url input = true ∧ is_datetime createdAt = true)
    (stored key screenshotValidator b)
  ∧ Forall (λ r, ∃ age predictTime imageData createdAt,
              r = AgeDetectionHistoryItem age predictTime imageData createdAt
              ∧ is_datetime createdAt = true)
      (stored key ageDetectionResultValidator b).
Proof.
  split.
  - eapply Forall_impl; [apply (stored_conforms _ screenshotItem_stable)|].
    intros r Hr. by apply (screenshotItem_Some (Some r)).
  - eapply Forall_impl; [apply (stored_conforms _ ageDetectionItem_stable)|].
    intros r Hr. by apply (ageDetectionItem_Some (Some r)).
Qed.

(** X9. When the records the pages build pass their validator. The
    history record of [processImage] conforms exactly when the detection
    result has a string as its age and a number as its prediction time
    and the time stamp is a date-time; the record of [captureScreenshot]
    conforms exactly when the page's URL passes zod's URL check and the
    time stamp is a date-time. *)
Theorem new_records_conform res input imageData createdAt :
  (conforms ageDetectionItem (AgeDetectionPage.historyItem res createdAt)
   ↔ (∃ age, AgeDetectionResult.age res = Some (VStr age))
     ∧ (∃ n, AgeDetectionResult.predictTime res = Some (VNum n))
     ∧ is_datetime createdAt = true)
  ∧ (conforms screenshotItem
       (object_literal [("input", Some (VStr input));
                        ("imageData", Some (VStr imageData));
                        ("createdAt", Some (VStr createdAt))])
     ↔ is_url input = true ∧ is_datetime createdAt = true).
Proof.
  split; split.
  - intros Hc. destruct (ageDetectionItem_Some _ _ Hc)
      as (age & n & image & created & Heq & Hd).
    unfold AgeDetectionPage.historyItem, object_literal,
      AgeDetectionHistoryItem in Heq.
    destruct res as [[a|] [p|] i]; simpl in Heq; simplify_eq. eauto.
  - intros ((age & Ha) & (n & Hn) & Hd). destruct res as [a p i].
    simpl in Ha, Hn. subst a p.
    by apply ageDetectionItem_conforms.
  - intros Hc. destruct (screenshotItem_Some _ _ Hc)
      as (i & d & c & Heq & Hu & Hd).
    unfold object_literal, ScreenshotItem in Heq. simpl in Heq.
    by simplify_eq.
  - intros [Hu Hd]. by apply screenshotItem_conforms.
Qed.
End SchemaBehaviour.

(** ** What a run of a page handler leaves behind *)

Ltac unfold_age_setters :=
  unfold AgeDetectionPage.setError, AgeDetectionPage.setProcessingState,
    AgeDetectionPage.setUploadedImageUrl, AgeDetectionPage.setHistory,
    AgeDetectionPage.setResult, AgeDetectionPage.setFile,
    AgeDetectionPage.setImageData, AgeDetectionPage.setExpandedIndex.

Ltac unfold_shot_setters :=
  unfold ScreenshotCapture.setError, ScreenshotCapture.setScreenshotState,
    ScreenshotCapture.setItems, ScreenshotCapture.setCurrentImageData,
    ScreenshotCapture.setExpandedIndex.

Section PageOutcomes.
Context {host : Host} {laws : HostLaws} {web : Web}.

(** X10. A run of [processImage] never throws and ends in one of three
    ways. Without a file or without image data it changes nothing. When
    the remote calls return a result, the page is in state [success]
    with that result and no error, and its history is what
    [saveToStorage] returned for the new record. When a remote call
    throws, the page is in state [error] with the message of the
    exception (or [Unknown error] when what was thrown is not an
    [Error]), and result, history and storage are as before. The page is
    never left in [uploading] or [processing]; file and image data are
    never changed. *)
Theorem processImage_outcome s b :
  let run := AgeDetectionPage.processImage (s, b) in
  let s' := run.2.1 in
  let b' := run.2.2 in
  run.1 = Return tt
  ∧ AgeDetectionPage.file s' = AgeDetectionPage.file s
  ∧ AgeDetectionPage.imageData s' = AgeDetectionPage.imageData s
  ∧ match AgeDetectionPage.file s with
    | Some file =>
        if truthy_text (AgeDetectionPage.imageData s) then
          match remote_detection s file with
          | Return res =>
              AgeDetectionPage.processingState s' = AgeDetectionPage.Success
              ∧ AgeDetectionPage.result s' = Some res
              ∧ AgeDetectionPage.error s' = None
              ∧ saveToStorage AGE_DETECTION_STORAGE_KEY
                  (AgeDetectionPage.historyItem res (clock b))
                  ageDetectionResultValidator b
                = (Return (AgeDetectionPage.history s'), b')
          | Throw e =>
              AgeDetectionPage.processingState s' = AgeDetectionPage.Failed
              ∧ AgeDetectionPage.error s'
                = Some (message_or "Unknown error" e)
              ∧ AgeDetectionPage.result s' = AgeDetectionPage.result s
              ∧ AgeDetectionPage.history s' = AgeDetectionPage.history s
              ∧ b' = b
          end
        else (s', b') = (s, b)
    | None => (s', b') = (s, b)
    end.
Proof.
  unfold AgeDetectionPage.processImage, remote_detection.
  unfold_age_setters. run_page.
  destruct (AgeDetectionPage.file s) as [file|] eqn:Hf; simpl; [|done].
  destruct (truthy_text (AgeDetectionPage.imageData s)); simpl; [|done].
  destruct (truthy (AgeDetectionPage.uploadedImageUrl s)); simpl.
  - destruct (AgeDetectionPage.detectAge _ _) as [res|e]; simpl; [|done].
    destruct (saveToStorage_returns AGE_DETECTION_STORAGE_KEY
                (AgeDetectionPage.historyItem res (clock b))
                ageDetectionResultValidator b) as [items Hs].
    by rewrite Hs.
  - destruct (uploadImage file) as [imageUrl|e]; simpl; [|done].
    destruct (AgeDetectionPage.detectAge _ _) as [res|e]; simpl; [|done].
    destruct (saveToStorage_returns AGE_DETECTION_STORAGE_KEY
                (AgeDetectionPage.historyItem res (clock b))
                ageDetectionResultValidator b) as [items Hs].
    by rewrite Hs.
Qed.

(** X11. A run of [captureScreenshot] never throws and never changes
    the URL, the API key or the parameters. With a URL that is blank or
    that [new URL] rejects, or with a blank API key, it changes nothing.
    Otherwise, when the capture and the encoding of the image return,
    the page is in state [success] with that image as the current one
    and no error, and its items are what [saveToStorage] returned for
    the new record; when one of them throws, the page is in state
    [error] with the message of the exception (or [Unknown error
    occurred]), and current image, items and storage are as before. *)
Theorem captureScreenshot_outcome s b :
  let run := ScreenshotCapture.captureScreenshot (s, b) in
  let s' := run.2.1 in
  let b' := run.2.2 in
  run.1 = Return tt
  ∧ ScreenshotCapture.url s' = ScreenshotCapture.url s
  ∧ ScreenshotCapture.apiKey s' = ScreenshotCapture.apiKey s
  ∧ ScreenshotCapture.params s' = ScreenshotCapture.params s
  ∧ if negb (ScreenshotCapture.isValidUrl s)
       || String.eqb (trim (ScreenshotCapture.apiKey s)) ""
    then (s', b') = (s, b)
    else
      match remote_capture s with
      | Return imageData =>
          ScreenshotCapture.screenshotState s' = ScreenshotCapture.Success
          ∧ ScreenshotCapture.currentImageData s' = Some imageData
          ∧ ScreenshotCapture.error s' = None
          ∧ saveToStorage STORAGE_KEY
              (object_literal
                 [("input", Some (VStr (ScreenshotCapture.url s)));
                  ("imageData", Some (VStr imageData));
                  ("createdAt", Some (VStr (clock b)))])
              screenshotValidator b
            = (Return (ScreenshotCapture.items s'), b')
      | Throw e =>
          ScreenshotCapture.screenshotState s' = ScreenshotCapture.Failed
          ∧ ScreenshotCapture.error s'
            = Some (message_or "Unknown error occurred" e)
          ∧ ScreenshotCapture.currentImageData s'
            = ScreenshotCapture.currentImageData s
          ∧ ScreenshotCapture.items s' = ScreenshotCapture.items s
          ∧ b' = b
      end.
Proof.
  unfold ScreenshotCapture.captureScreenshot, remote_capture.
  unfold_shot_setters. unfold capture_request. run_page.
  destruct (negb (ScreenshotCapture.isValidUrl s) || _); simpl; [done|].
  destruct (fetch _) as [response|e]; simpl; [|done].
  destruct (ok response); simpl; [|done].
  destruct (blob response) as [image|e]; simpl; [|done].
  destruct (blobToBase64 image) as [imageData|e]; simpl; [|done].
  match goal with |- context [saveToStorage ?k ?i ?v b] =>
    destruct (saveToStorage_returns k i v b) as [items Hs] end.
  by rewrite Hs.
Qed.

(** X12. An image that cannot be read is reported without a cause: when
    the capture call answers with a success status and a body, and the
    [FileReader] then fails on that body, the page is in state [error]
    with the message [Unknown error occurred], since the reader rejects
    with an event and not with an [Error]; nothing is stored. *)
Theorem captureScreenshot_unreadable_image s b response image :
  ScreenshotCapture.isValidUrl s = true →
  trim (ScreenshotCapture.apiKey s) ≠ "" →
  fetch (capture_request s) = Return response →
  ok response = true →
  blob response = Return image →
  readAsDataURL image = None →
  let run := ScreenshotCapture.captureScreenshot (s, b) in
  ScreenshotCapture.screenshotState run.2.1 = ScreenshotCapture.Failed
  ∧ ScreenshotCapture.error run.2.1 = Some "Unknown error occurred"
  ∧ ScreenshotCapture.items run.2.1 = ScreenshotCapture.items s
  ∧ run.2.2 = b.
Proof.
  intros Hurl Hkey Hfetch Hok Hblob Hread.
  unfold capture_request in Hfetch.
  unfold ScreenshotCapture.captureScreenshot.
  unfold_shot_setters. unfold blobToBase64. run_page.
  rewrite Hurl. simpl.
  destruct (String.eqb_spec (trim (ScreenshotCapture.apiKey s)) "") as [|_];
    [done|].
  rewrite Hfetch. simpl. rewrite Hok. simpl. rewrite Hblob. simpl.
  by rewrite Hread.
Qed.

(** X13. An upload is not repeated. When a run of [processImage] that
    had no upload reference uploads the file and the detection then
    fails, the page keeps the reference the upload returned: the next
    run, for whatever file, sends the detection request for that
    reference and no upload. *)
Theorem processImage_reuses_upload s b file imageUrl e :
  AgeDetectionPage.file s = Some file →
  truthy_text (AgeDetectionPage.imageData s) = true →
  truthy (AgeDetectionPage.uploadedImageUrl s) = false →
  uploadImage file = Return imageUrl →
  AgeDetectionPage.detectAge (AgeDetectionPage.imageData s) imageUrl = Throw e →
  let s' := (AgeDetectionPage.processImage (s, b)).2.1 in
  AgeDetectionPage.uploadedImageUrl s' = imageUrl
  ∧ AgeDetectionPage.processingState s' = AgeDetectionPage.Failed
  ∧ ∀ file',
      remote_detection s' file'
      = AgeDetectionPage.detectAge (AgeDetectionPage.imageData s) imageUrl.
Proof.
  intros Hfile Hdata Hnone Hup Hdet.
  assert (Htruthy : truthy imageUrl = true).
  { rewrite uploadImage_run in Hup.
    destruct (fetch _) as [response|]; simpl in Hup; [|done].
    destruct (negb (ok response)); [done|].
    destruct (json response) as [data|]; simpl in Hup; [|done].
    destruct data; lazy iota in Hup; try done;
      (destruct (is_string _ _ && truthy _) eqn:Hb; [|done]);
      injection Hup as <-; by apply andb_prop in Hb as [_ ?]. }
  unfold AgeDetectionPage.processImage, remote_detection.
  unfold_age_setters. run_page.
  rewrite Hfile. simpl. rewrite Hdata. simpl. rewrite Hnone. simpl.
  rewrite Hup. simpl. rewrite Hdet. simpl. rewrite Htruthy. done.
Qed.

(** X14. Choosing a file. With no file chosen [handleFileChange]
    changes nothing. Otherwise it never throws, never touches the
    history or the storage, and makes the chosen file the page's file.
    When the file is read, the page holds its encoding, result, error
    and upload reference are cleared, and so the next [processImage]
    uploads the chosen file and runs the detection with that encoding.
    When the read fails, the error is [Failed to process image] and the
    image data, the upload reference and the result of the file chosen
    before are kept next to the new file: with an upload reference kept,
    the next [processImage] sends what it would have sent for the file
    chosen before, the detection of the image uploaded earlier; without
    one, it uploads the new file and runs the detection with the image
    data of the file chosen before. *)
Theorem handleFileChange_then_processImage s b selectedFile files :
  let run := AgeDetectionPage.handleFileChange (selectedFile :: files) (s, b) in
  let s' := run.2.1 in
  AgeDetectionPage.handleFileChange [] (s, b) = (Return tt, (s, b))
  ∧ run.1 = Return tt ∧ run.2.2 = b
  ∧ AgeDetectionPage.file s' = Some selectedFile
  ∧ AgeDetectionPage.history s' = AgeDetectionPage.history s
  ∧ (∀ base64Data,
       readAsDataURL (file_blob selectedFile) = Some base64Data →
       AgeDetectionPage.imageData s' = Some base64Data
       ∧ AgeDetectionPage.result s' = None
       ∧ AgeDetectionPage.error s' = None
       ∧ AgeDetectionPage.uploadedImageUrl s' = None
       ∧ remote_detection s' selectedFile
         = (imageUrl ← uploadImage selectedFile;
            AgeDetectionPage.detectAge (Some base64Data) imageUrl))
  ∧ (readAsDataURL (file_blob selectedFile) = None →
       AgeDetectionPage.error s' = Some "Failed to process image"
       ∧ AgeDetectionPage.imageData s' = AgeDetectionPage.imageData s
       ∧ AgeDetectionPage.uploadedImageUrl s' = AgeDetectionPage.uploadedImageUrl s
       ∧ AgeDetectionPage.result s' = AgeDetectionPage.result s
       ∧ (truthy (AgeDetectionPage.uploadedImageUrl s) = true →
          ∀ previousFile,
            remote_detection s' selectedFile
            = remote_detection s previousFile)
       ∧ (truthy (AgeDetectionPage.uploadedImageUrl s) = false →
          remote_detection s' selectedFile
          = (imageUrl ← uploadImage selectedFile;
             AgeDetectionPage.detectAge (AgeDetectionPage.imageData s)
               imageUrl))).
Proof.
  unfold AgeDetectionPage.handleFileChange, fileToBase64, blobToBase64,
    remote_detection.
  unfold_age_setters. run_page.
  destruct (readAsDataURL (file_blob selectedFile)) as [data|] eqn:Hread;
    simpl; (do 5 (split; [done|])); split; try done.
  - by intros base64Data [= <-].
  - intros _. do 4 (split; [done|]). split; by intros ->.
Qed.

(** X15. Resetting a page never touches the history or the storage.
    [resetState] leaves the age-detection page idle, history and
    expanded entry as they were, and a [processImage] that follows it
    does nothing; [resetForm] leaves the screenshot page idle without a
    current image, items and expanded entry as they were, and the
    capture request the page would send is the same as before. *)
Theorem reset_keeps_history :
  (∀ (s : AgeDetectionPage.state) (b : browser),
     let after := (AgeDetectionPage.resetState (s, b)).2 in
     after.2 = b
     ∧ AgeDetectionPage.history after.1 = AgeDetectionPage.history s
     ∧ AgeDetectionPage.expandedIndex after.1 = AgeDetectionPage.expandedIndex s
     ∧ AgeDetectionPage.processingState after.1 = AgeDetectionPage.Idle
     ∧ AgeDetectionPage.processImage after = (Return tt, after))
  ∧ (∀ (s : ScreenshotCapture.state) (b : browser),
       let after := (ScreenshotCapture.resetForm (s, b)).2 in
       after.2 = b
       ∧ ScreenshotCapture.items after.1 = ScreenshotCapture.items s
       ∧ ScreenshotCapture.expandedIndex after.1 = ScreenshotCapture.expandedIndex s
       ∧ ScreenshotCapture.screenshotState after.1 = ScreenshotCapture.Idle
       ∧ ScreenshotCapture.currentImageData after.1 = None
       ∧ capture_request after.1 = capture_request s).
Proof.
  split; intros s b.
  - unfold AgeDetectionPage.resetState, AgeDetectionPage.processImage.
    unfold_age_setters. by run_page.
  - unfold ScreenshotCapture.resetForm, capture_request.
    unfold_shot_setters. by run_page.
Qed.

(** X16. After a deletion the page shows what is stored. For every
    index, and whether or not the storage takes the write,
    [deleteHistoryItem] and [deleteScreenshot] return normally.
    [deleteScreenshot] leaves the page with the list that a read of the
    key returns, the storage unchanged by that read; so does
    [deleteHistoryItem] when the prediction times of the stored records
    are finite. *)
Theorem delete_leaves_page_in_sync index :
  (∀ (s : AgeDetectionPage.state) (b : browser),
     let run := AgeDetectionPage.deleteHistoryItem index (s, b) in
     run.1 = Return tt
     ∧ (Forall finite
          (stored AGE_DETECTION_STORAGE_KEY ageDetectionResultValidator b) →
        getFromStorage AGE_DETECTION_STORAGE_KEY ageDetectionResultValidator
          run.2.2
        = (Return (AgeDetectionPage.history run.2.1), run.2.2)))
  ∧ (∀ (s : ScreenshotCapture.state) (b : browser),
       let run := ScreenshotCapture.deleteScreenshot index (s, b) in
       run.1 = Return tt
       ∧ getFromStorage STORAGE_KEY screenshotValidator run.2.2
         = (Return (ScreenshotCapture.items run.2.1), run.2.2)).
Proof.
  split; intros s b.
  - destruct (removeFromStorage_in_sync ageDetectionItem
                ageDetectionItem_stable AGE_DETECTION_STORAGE_KEY index b)
      as (items & b' & Hrm & Hread).
    unfold AgeDetectionPage.deleteHistoryItem. unfold_age_setters. run_page.
    unfold ageDetectionResultValidator. rewrite Hrm. simpl.
    destruct (AgeDetectionPage.expandedIndex s) as [expanded|]; simpl;
      [|done].
    destruct (expanded =? index); simpl; [done|].
    by destruct (index <? expanded).
  - destruct (removeFromStorage_in_sync screenshotItem
                screenshotItem_stable STORAGE_KEY index b)
      as (items & b' & Hrm & Hread).
    specialize (Hread (stored_screenshots_finite STORAGE_KEY b)).
    unfold ScreenshotCapture.deleteScreenshot. unfold_shot_setters. run_page.
    unfold screenshotValidator. rewrite Hrm. simpl.
    destruct (ScreenshotCapture.expandedIndex s) as [expanded|]; simpl;
      [|done].
    destruct (expanded =? index); simpl; [done|].
    by destruct (index <? expanded).
Qed.

(** X17. A page starts with what is stored. The first render of the
    age-detection page is idle, without a file and with nothing
    expanded, and its history is what a read of its key returns; the
    effect that runs after the first render of the screenshot page sets
    its items to what a read of its key returns. In both cases a read
    afterwards returns the list the page shows and changes nothing. *)
Theorem mount_reads_history b :
  let items := stored AGE_DETECTION_STORAGE_KEY ageDetectionResultValidator b in
  let b' := healed AGE_DETECTION_STORAGE_KEY ageDetectionResultValidator b in
  (∃ s, AgeDetectionPage.initialState b = (Return s, b')
        ∧ AgeDetectionPage.history s = items
        ∧ AgeDetectionPage.processingState s = AgeDetectionPage.Idle
        ∧ AgeDetectionPage.file s = None
        ∧ AgeDetectionPage.expandedIndex s = None
        ∧ getFromStorage AGE_DETECTION_STORAGE_KEY
            ageDetectionResultValidator b' = (Return items, b'))
  ∧ let run := ScreenshotCapture.mountEffect
                 (ScreenshotCapture.initialState, b) in
    run.1 = Return tt
    ∧ getFromStorage STORAGE_KEY screenshotValidator run.2.2
      = (Return (ScreenshotCapture.items run.2.1), run.2.2)
    ∧ ScreenshotCapture.items run.2.1 = stored STORAGE_KEY screenshotValidator b
    ∧ ScreenshotCapture.screenshotState run.2.1 = ScreenshotCapture.Idle.
Proof.
  intros items b'. split.
  - unfold AgeDetectionPage.initialState.
    unfold mbind, M_bind, mret, M_ret.
    rewrite getFromStorage_returns. fold items b'.
    eexists. split; [done|]. simpl. repeat split. apply healed_idemp.
  - unfold ScreenshotCapture.mountEffect. unfold_shot_setters. run_page.
    rewrite getFromStorage_returns. simpl. repeat split. apply healed_idemp.
Qed.


Lemma detectAge_imageData imageData imageUrl res :
  AgeDetectionPage.detectAge imageData imageUrl = Return res →
  imageData = Some (AgeDetectionResult.imageData res).
Proof.
  rewrite detectAge_run.
  destruct (fetch _) as [response|]; simpl; [|done].
  destruct (negb (ok response)); [done|].
  destruct (json response) as [data|]; simpl; [|done].
  assert (Hrest :
    (if negb (is_string (field data "status") "succeeded")
        || truthy (field data "error")
     then Throw (Error (ToString
            (if truthy (field data "error") then field data "error"
             else Some (VStr "Detection failed"))))
     else if negb (truthy_text imageData)
     then Throw (Error "Image data is missing")
     else
       predict_time ← get_property (field data "metrics") "predict_time";
       Return {| AgeDetectionResult.age := field data "output";
                 AgeDetectionResult.predictTime := predict_time;
                 AgeDetectionResult.imageData := default "" imageData |})
    = Return res → imageData = Some (AgeDetectionResult.imageData res)).
  { destruct (negb _ || _); [done|].
    destruct imageData as [image|]; simpl; [|done].
    destruct (negb _); [done|].
    destruct (get_property _ _); simpl; [|done]. by intros [= <-]. }
  by destruct data.
Qed.

(** X19. A detection that succeeds is shown and stored alike. Let the
    remote calls of a run of [processImage] return a result whose age is
    a string and whose prediction time is a finite number, the clock
    give a date-time, the prediction times of the stored records be
    finite, and the storage take the write. Then the page's history is
    the new record in front of what the key read as before; the record
    holds that age and prediction time, the image data of the page and
    the clock's time stamp; and a read of the key afterwards returns
    exactly the page's history and changes nothing. *)
Theorem processImage_success_in_sync s b file res age predictTime :
  AgeDetectionPage.file s = Some file →
  truthy_text (AgeDetectionPage.imageData s) = true →
  remote_detection s file = Return res →
  AgeDetectionResult.age res = Some (VStr age) →
  AgeDetectionResult.predictTime res = Some (VNum predictTime) →
  finite_number predictTime = true →
  is_datetime (clock b) = true →
  let items :=
    stored AGE_DETECTION_STORAGE_KEY ageDetectionResultValidator b in
  let record :=
    AgeDetectionHistoryItem age predictTime
      (AgeDetectionResult.imageData res) (clock b) in
  Forall finite items →
  accepts (healed AGE_DETECTION_STORAGE_KEY ageDetectionResultValidator b)
    AGE_DETECTION_STORAGE_KEY (record :: items) = true →
  let s' := (AgeDetectionPage.processImage (s, b)).2.1 in
  let b' := (AgeDetectionPage.processImage (s, b)).2.2 in
  AgeDetectionPage.history s' = record :: items
  ∧ AgeDetectionPage.imageData s = Some (AgeDetectionResult.imageData res)
  ∧ getFromStorage AGE_DETECTION_STORAGE_KEY ageDetectionResultValidator b'
    = (Return (record :: items), b').
Proof.
  intros Hfile Hdata Hremote Hage Htime Hfin Hclock items record Hold Hacc
    s' b'.
  assert (Hitem : AgeDetectionPage.historyItem res (clock b) = record).
  { unfold AgeDetectionPage.historyItem, object_literal. simpl.
    by rewrite Hage, Htime. }
  pose proof (processImage_stores s b) as Hst. cbv zeta in Hst.
  fold s' b' in Hst.
  change ((AgeDetectionPage.processImage (s, b)).2.2) with b' in Hst.
  rewrite Hfile, Hdata, Hremote, Hitem, saveToStorage_run in Hst.
  cbv zeta in Hst. fold items in Hst. rewrite Hacc in Hst. simpl in Hst.
  injection Hst as Hb Hh. split; [done|]. split.
  - unfold remote_detection in Hremote.
    destruct (if truthy _ then _ else _) as [imageUrl|]; simpl in Hremote;
      [|done].
    by apply detectAge_imageData in Hremote.
  - rewrite Hb. apply stored_written; constructor; try done.
    + by apply ageDetectionItem_conforms.
    + apply (stored_conforms _ ageDetectionItem_stable).
    + by apply AgeDetectionHistoryItem_finite.
Qed.

(** X20. A capture that succeeds is shown and stored alike. Let the
    page's URL and API key pass the checks of [captureScreenshot], the
    capture and the encoding return the image data, the URL pass zod's
    URL check, the clock give a date-time, and the storage take the
    write. Then the page's items are the new record in front of what
    the key read as before; the record holds the page's URL, the image
    data and the clock's time stamp; and a read of the key afterwards
    returns exactly the page's items and changes nothing. *)
Theorem captureScreenshot_success_in_sync s b imageData :
  ScreenshotCapture.isValidUrl s = true →
  trim (ScreenshotCapture.apiKey s) ≠ "" →
  remote_capture s = Return imageData →
  is_url (ScreenshotCapture.url s) = true →
  is_datetime (clock b) = true →
  let items := stored STORAGE_KEY screenshotValidator b in
  let record := ScreenshotItem (ScreenshotCapture.url s) imageData (clock b) in
  accepts (healed STORAGE_KEY screenshotValidator b) STORAGE_KEY
    (record :: items) = true →
  let s' := (ScreenshotCapture.captureScreenshot (s, b)).2.1 in
  let b' := (ScreenshotCapture.captureScreenshot (s, b)).2.2 in
  ScreenshotCapture.items s' = record :: items
  ∧ getFromStorage STORAGE_KEY screenshotValidator b'
    = (Return (record :: items), b').
Proof.
  intros Hurl Hkey Hremote Hu Hclock items record Hacc s' b'.
  pose proof (captureScreenshot_stores s b) as Hst. cbv zeta in Hst.
  fold s' in Hst.
  change ((ScreenshotCapture.captureScreenshot (s, b)).2.2) with b' in Hst.
  rewrite Hurl in Hst.
  destruct (String.eqb_spec (trim (ScreenshotCapture.apiKey s)) "") as [|_];
    [done|].
  simpl in Hst. rewrite Hremote in Hst.
  change (object_literal _) with record in Hst.
  rewrite saveToStorage_run in Hst. cbv zeta in Hst. fold items in Hst.
  rewrite Hacc in Hst. simpl in Hst.
  injection Hst as Hb Hh. split; [done|].
  rewrite Hb. apply stored_written; constructor.
  - by apply screenshotItem_conforms.
  - apply (stored_conforms _ screenshotItem_stable).
  - done.
  - apply stored_screenshots_finite.
Qed.
End PageOutcomes.

(** ** The order in which the records are shown *)
Section SortFacts.
Context {A : Type} (compareFn : A → A → Z).

Lemma sort_insert_Permutation x l : sort_insert compareFn x l ≡ₚ x :: l.
Proof.
  induction l as [|y l IH]; simpl; [done|].
  destruct (compareFn x y <=? 0); [done|].
  rewrite IH. apply Permutation_swap.
Qed.

Lemma Array_sort_Permutation l : Array_sort compareFn l ≡ₚ l.
Proof.
  induction l as [|x l IH]; simpl; [done|].
  by rewrite sort_insert_Permutation, IH.
Qed.

Lemma Array_sort_Sorted l :
  Sorted (λ a b, compareFn a b ≤ 0) l → Array_sort compareFn l = l.
Proof.
  induction 1 as [|x l Hl IH Hhd]; simpl; [done|].
  rewrite IH. destruct Hhd as [|y l Hxy]; simpl; [done|].
  by destruct (Z.leb_spec (compareFn x y) 0); [|lia].
Qed.

Lemma StronglySorted_delete (R : A → A → Prop) i l :
  StronglySorted R l → StronglySorted R (delete i l).
Proof.
  intros Hs. revert i. induction Hs as [|x l Hs IH Hx]; intros [|i]; simpl;
    [constructor|constructor|done|].
  constructor; [apply IH|]. by apply Forall_delete.
Qed.
End SortFacts.

Section DisplayOrder.
Context {host : Host} {laws : HostLaws} {web : Web} {display : Display}.

Lemma newest_first_dated a b ta tb :
  Date_getTime (createdAt_of a) = Some ta →
  Date_getTime (createdAt_of b) = Some tb →
  newest_first a b = tb - ta.
Proof. intros Ha Hb. unfold newest_first. by rewrite Ha, Hb. Qed.

Lemma sort_insert_ordered x l :
  dated x → Forall dated l →
  StronglySorted not_older l →
  StronglySorted not_older (sort_insert newest_first x l).
Proof.
  intros [tx Hx] Hd Hs. induction Hs as [|y l Hs IH Hy]; simpl.
  - by repeat constructor.
  - inversion_clear Hd as [|? ? [ty Hty] Hd'].
    destruct (Z.leb_spec (newest_first x y) 0) as [Hle|Hgt].
    + constructor; [by constructor|]. constructor; [done|].
      rewrite Forall_forall in Hy, Hd'. apply Forall_forall. intros z Hz.
      destruct (Hd' z Hz) as [tz Htz]. specialize (Hy z Hz).
      unfold not_older in *.
      rewrite (newest_first_dated _ _ _ _ Hx Hty) in Hle.
      rewrite (newest_first_dated _ _ _ _ Hty Htz) in Hy.
      rewrite (newest_first_dated _ _ _ _ Hx Htz). lia.
    + constructor; [by apply IH|].
      rewrite sort_insert_Permutation. constructor; [|done].
      unfold not_older. rewrite (newest_first_dated _ _ _ _ Hx Hty) in Hgt.
      rewrite (newest_first_dated _ _ _ _ Hty Hx). lia.
Qed.

Lemma Array_sort_ordered l :
  Forall dated l → StronglySorted not_older (Array_sort newest_first l).
Proof.
  induction 1 as [|x l Hx Hl IH]; simpl; [constructor|].
  apply sort_insert_ordered; [done| |done].
  by rewrite Array_sort_Permutation.
Qed.

(** X21. The list a page shows holds exactly the records of the page's
    list, each as often as there; when the [Date] constructor reads the
    [createdAt] of every record, it is ordered most recent first: no
    record stands before one that is more recent. *)
Theorem sorted_display_is_ordered :
  (∀ s : AgeDetectionPage.state,
     AgeDetectionPage.sortedHistory s ≡ₚ AgeDetectionPage.history s
     ∧ (Forall dated (AgeDetectionPage.history s) →
        StronglySorted not_older (AgeDetectionPage.sortedHistory s)))
  ∧ (∀ s : ScreenshotCapture.state,
       ScreenshotCapture.sortedItems s ≡ₚ ScreenshotCapture.items s
       ∧ (Forall dated (ScreenshotCapture.items s) →
          StronglySorted not_older (ScreenshotCapture.sortedItems s))).
Proof.
  split; intros s; (split; [apply Array_sort_Permutation|]);
    apply Array_sort_ordered.
Qed.

(** X22. The delete button removes the entry it belongs to, as long as
    the records are stored most recent first. The page passes the
    position of an entry in the list it shows to a removal that counts
    positions in the stored sequence. Let the page's list be what its
    key reads as, with the [createdAt] of every record read by [Date]
    and no record before a more recent one. Then the list shown is the
    page's list, and after a deletion at an index that is not negative,
    the write being taken, the list shown is the one shown before
    without the entry at that index. *)
Theorem delete_removes_displayed_record (index : Z) :
  0 ≤ index →
  (∀ (s : AgeDetectionPage.state) (b : browser),
     let s' := (AgeDetectionPage.deleteHistoryItem index (s, b)).2.1 in
     AgeDetectionPage.history s
     = stored AGE_DETECTION_STORAGE_KEY ageDetectionResultValidator b →
     Forall dated (AgeDetectionPage.history s) →
     StronglySorted not_older (AgeDetectionPage.history s) →
     accepts (healed AGE_DETECTION_STORAGE_KEY ageDetectionResultValidator b)
       AGE_DETECTION_STORAGE_KEY
       (delete (Z.to_nat index) (AgeDetectionPage.history s)) = true →
     AgeDetectionPage.sortedHistory s = AgeDetectionPage.history s
     ∧ AgeDetectionPage.sortedHistory s'
       = delete (Z.to_nat index) (AgeDetectionPage.sortedHistory s))
  ∧ (∀ (s : ScreenshotCapture.state) (b : browser),
       let s' := (ScreenshotCapture.deleteScreenshot index (s, b)).2.1 in
       ScreenshotCapture.items s = stored STORAGE_KEY screenshotValidator b →
       Forall dated (ScreenshotCapture.items s) →
       StronglySorted not_older (ScreenshotCapture.items s) →
       accepts (healed STORAGE_KEY screenshotValidator b) STORAGE_KEY
         (delete (Z.to_nat index) (ScreenshotCapture.items s)) = true →
       ScreenshotCapture.sortedItems s = ScreenshotCapture.items s
       ∧ ScreenshotCapture.sortedItems s'
         = delete (Z.to_nat index) (ScreenshotCapture.sortedItems s)).
Proof.
  intros Hi. split; intros s b s' Hsync _ Hord Hacc.
  - assert (Hs' : AgeDetectionPage.history s'
                  = delete (Z.to_nat index) (AgeDetectionPage.history s)).
    { subst s'. unfold AgeDetectionPage.deleteHistoryItem.
      unfold_age_setters. run_page.
      rewrite removeFromStorage_run. cbv zeta. rewrite splice_nonneg by done.
      rewrite <- Hsync, Hacc. simpl.
      destruct (AgeDetectionPage.expandedIndex s) as [expanded|]; [|done].
      destruct (expanded =? index); [done|]. by destruct (index <? expanded). }
    unfold AgeDetectionPage.sortedHistory. rewrite Hs'.
    rewrite (Array_sort_Sorted _ (AgeDetectionPage.history s))
      by (by apply StronglySorted_Sorted).
    split; [done|]. apply Array_sort_Sorted.
    by apply StronglySorted_Sorted, StronglySorted_delete.
  - assert (Hs' : ScreenshotCapture.items s'
                  = delete (Z.to_nat index) (ScreenshotCapture.items s)).
    { subst s'. unfold ScreenshotCapture.deleteScreenshot.
      unfold_shot_setters. run_page.
      rewrite removeFromStorage_run. cbv zeta. rewrite splice_nonneg by done.
      rewrite <- Hsync, Hacc. simpl.
      destruct (ScreenshotCapture.expandedIndex s) as [expanded|]; [|done].
      destruct (expanded =? index); [done|]. by destruct (index <? expanded). }
    unfold ScreenshotCapture.sortedItems. rewrite Hs'.
    rewrite (Array_sort_Sorted _ (ScreenshotCapture.items s))
      by (by apply StronglySorted_Sorted).
    split; [done|]. apply Array_sort_Sorted.
    by apply StronglySorted_Sorted, StronglySorted_delete.
Qed.
End DisplayOrder.

(** ** Labels *)
Section Labels.
Context {host : Host} {web : Web} {display : Display}.

(** X23. The age label. [ageDescription] is the empty string exactly
    when there is no result, the age of the result is falsy, or
    [parseInt] finds no integer at its start. The labels cover bands of
    ages without gaps: an age between two ages that have the same label
    has that label too. *)
Theorem ageDescription_bands result :
  (AgeDetectionPage.ageDescription result ≠ "" ↔
   ∃ r age, result = Some r
            ∧ truthy (AgeDetectionResult.age r) = true
            ∧ parseInt (AgeDetectionResult.age r) = Some age)
  ∧ (∀ r1 r2 r age1 age2 age,
       truthy (AgeDetectionResult.age r1) = true →
       truthy (AgeDetectionResult.age r2) = true →
       truthy (AgeDetectionResult.age r) = true →
       parseInt (AgeDetectionResult.age r1) = Some age1 →
       parseInt (AgeDetectionResult.age r2) = Some age2 →
       parseInt (AgeDetectionResult.age r) = Some age →
       age1 ≤ age ≤ age2 →
       AgeDetectionPage.ageDescription (Some r1)
       = AgeDetectionPage.ageDescription (Some r2) →
       AgeDetectionPage.ageDescription (Some r)
       = AgeDetectionPage.ageDescription (Some r1)).
Proof.
  split.
  - unfold AgeDetectionPage.ageDescription. destruct result as [r|].
    + destruct (truthy (AgeDetectionResult.age r)) eqn:Ht; simpl.
      * destruct (parseInt (AgeDetectionResult.age r)) as [age|] eqn:Hp.
        -- split; [by eauto|]. intros _.
           repeat match goal with
                  | |- context [?x <? ?y] => destruct (x <? y)
                  end; done.
        -- split; [by intros []|]. intros (? & ? & [= <-] & _ & ?). congruence.
      * split; [by intros []|]. intros (? & ? & [= <-] & ? & _). congruence.
    + split; [by intros []|]. by intros (? & ? & ? & _).
  - intros r1 r2 r age1 age2 age Ht1 Ht2 Ht Hp1 Hp2 Hp Hle.
    unfold AgeDetectionPage.ageDescription.
    rewrite Ht1, Ht2, Ht, Hp1, Hp2, Hp. simpl.
    repeat match goal with
           | |- context [?x <? ?y] => destruct (Z.ltb_spec x y)
           end; try done; lia.
Qed.

Lemma String_length_substring_0 n s :
  String.length (String.substring 0 n s) = Nat.min n (String.length s).
Proof.
  revert s. induction n as [|n IH]; intros [|c s]; simpl; try done.
  by rewrite IH.
Qed.

Lemma String_length_append s t :
  String.length (s ++ t) = (String.length s + String.length t)%nat.
Proof. induction s as [|c s IH]; simpl; [done|]. by rewrite IH. Qed.

Lemma substring_0_append n s t :
  (n ≤ String.length s)%nat →
  String.substring 0 n (s ++ t) = String.substring 0 n s.
Proof.
  revert s. induction n as [|n IH]; intros [|c s] Hn; simpl in *;
    try done; try lia.
  - by destruct t.
  - rewrite IH by lia. done.
Qed.

Lemma substring_0_idemp n s :
  String.substring 0 n (String.substring 0 n s) = String.substring 0 n s.
Proof.
  revert s. induction n as [|n IH]; intros [|c s]; simpl; try done.
  by rewrite IH.
Qed.

Lemma substring_0_length s :
  String.substring 0 (String.length s) s = s.
Proof. induction s as [|c s IH]; simpl; [done|]. by rewrite IH. Qed.

(** X24. The short form of a URL is short. For text that [new URL]
    rejects, [formatUrl] returns at most 33 characters: the text itself
    when it has at most 30 characters, otherwise 33 characters that
    start with the first 30 of the text. For a URL it returns the host
    name, followed by at most three more characters. *)
Theorem formatUrl_bounds url :
  (URL_parse url = None →
   (String.length (ScreenshotCapture.formatUrl url) ≤ 33)%nat
   ∧ ((String.length url ≤ 30)%nat → ScreenshotCapture.formatUrl url = url)
   ∧ ((30 < String.length url)%nat →
      String.length (ScreenshotCapture.formatUrl url) = 33%nat)
   ∧ String.substring 0 30 (ScreenshotCapture.formatUrl url)
     = String.substring 0 30 url)
  ∧ (∀ hostname pathname,
       URL_parse url = Some (hostname, pathname) →
       (String.length hostname
        ≤ String.length (ScreenshotCapture.formatUrl url)
        ≤ String.length hostname + 3)%nat
       ∧ String.substring 0 (String.length hostname)
           (ScreenshotCapture.formatUrl url) = hostname).
Proof.
  unfold ScreenshotCapture.formatUrl. split.
  - intros ->. destruct (Nat.ltb_spec 30 (String.length url)) as [Hlong|Hshort].
    + rewrite String_length_append, String_length_substring_0.
      rewrite substring_0_append by (rewrite String_length_substring_0; lia).
      rewrite substring_0_idemp.
      change (String.length "...") with 3%nat. rewrite Nat.min_l by lia.
      split; [lia|]. split; [intros; exfalso; lia|]. split; [lia|done].
    + split; [lia|]. split; [done|]. split; [intros; exfalso; lia|done].
  - intros hostname pathname ->. rewrite String_length_append.
    rewrite substring_0_append, substring_0_length by done.
    split; [|done]. destruct (Nat.ltb 1 (String.length pathname)); simpl; lia.
Qed.
End Labels.

(** * The operations on concrete states *)

#[local] Existing Instance roomy_host.

(** Two screenshots appended to an empty storage are read back, the
    second one first. *)
Lemma append_read_roundtrip_witness :
  Forall (conforms screenshotItem) [shot_a; shot_b]
  ∧ all_written STORAGE_KEY screenshotValidator [shot_a; shot_b] fresh_browser
  ∧ (getFromStorage STORAGE_KEY screenshotValidator
       (append_all STORAGE_KEY screenshotValidator [shot_a; shot_b]
          fresh_browser)).1
    = Return [shot_b; shot_a].
Proof.
  assert (Hvalid : Forall (conforms screenshotItem) [shot_a; shot_b])
    by (repeat constructor; vm_compute; reflexivity).
  assert (Hwritten : all_written STORAGE_KEY screenshotValidator
                       [shot_a; shot_b] fresh_browser)
    by (vm_compute; auto).
  assert (Hfinite : Forall finite [shot_a; shot_b])
    by (repeat constructor).
  assert (Hstored : Forall finite
                      (stored STORAGE_KEY screenshotValidator fresh_browser))
    by constructor.
  split; [exact Hvalid|]. split; [exact Hwritten|].
  exact (append_read_roundtrip screenshotItem screenshotItem_stable
           STORAGE_KEY [shot_a; shot_b] fresh_browser Hvalid Hfinite Hstored
           Hwritten).
Defined.

(** Removing index 1 of three stored screenshots leaves the other two;
    three removals at index 0 leave none. *)
Lemma remove_excises_witness :
  (∃ b', removeFromStorage STORAGE_KEY 1 screenshotValidator three_shots
         = (Return [shot_c; shot_a], b')
         ∧ getFromStorage STORAGE_KEY screenshotValidator b'
           = (Return [shot_c; shot_a], b'))
  ∧ (getFromStorage STORAGE_KEY screenshotValidator
       (drain STORAGE_KEY screenshotValidator 3 three_shots)).1 = Return [].
Proof.
  pose proof (remove_excises screenshotItem screenshotItem_stable
                STORAGE_KEY three_shots) as (Hone & _ & Hall & _).
  assert (Hrange : 0 ≤ 1 < Z.of_nat (length
            (stored STORAGE_KEY screenshotValidator three_shots)))
    by (vm_compute; split; [discriminate|reflexivity]).
  assert (Htaken : accepts (healed STORAGE_KEY screenshotValidator three_shots)
            STORAGE_KEY
            (delete (Z.to_nat 1)
               (stored STORAGE_KEY screenshotValidator three_shots)) = true)
    by (vm_compute; reflexivity).
  assert (Hdrained : all_removed STORAGE_KEY screenshotValidator
            (length (stored STORAGE_KEY screenshotValidator three_shots))
            three_shots)
    by (vm_compute; auto).
  assert (Hfinite : Forall finite
            (stored STORAGE_KEY screenshotValidator three_shots))
    by (repeat constructor).
  split.
  - destruct (Hone 1 Hrange Htaken) as (b' & Hremoved & Hread).
    exists b'. split; [exact Hremoved|exact (Hread Hfinite)].
  - exact (Hall Hfinite Hdrained).
Defined.

(** A screenshot without a valid date, appended to three stored ones, is
    not read back: the read that follows returns nothing and removes the
    entry. *)
Lemma invalid_never_read_witness :
  screenshotItem (Some shot_undated) = None
  ∧ (shot_undated ∉
       stored STORAGE_KEY screenshotValidator
         (saveToStorage STORAGE_KEY shot_undated screenshotValidator
            three_shots).2)
  ∧ getFromStorage STORAGE_KEY screenshotValidator
      (saveToStorage STORAGE_KEY shot_undated screenshotValidator three_shots).2
    = (Return [],
       with_localStorage (delete STORAGE_KEY)
         (saveToStorage STORAGE_KEY shot_undated screenshotValidator
            three_shots).2).
Proof.
  assert (Hbad : screenshotItem (Some shot_undated) = None)
    by (vm_compute; reflexivity).
  pose proof (invalid_never_read screenshotItem screenshotItem_stable
                screenshotItem_serialised
                STORAGE_KEY shot_undated three_shots Hbad) as [Hnever Hfirst].
  split; [exact Hbad|]. split.
  - exact (Hnever O).
  - apply Hfirst. vm_compute. reflexivity.
Defined.

(** An absent key, a text that is not JSON, and an array with one
    invalid record. *)
Lemma getFromStorage_self_heals_witness :
  getFromStorage STORAGE_KEY screenshotValidator fresh_browser
  = (Return [], fresh_browser)
  ∧ (getFromStorage STORAGE_KEY screenshotValidator
       (browser_holding STORAGE_KEY "{not json")).1 = Return []
  ∧ healed STORAGE_KEY screenshotValidator
      (browser_holding STORAGE_KEY "{not json")
    = with_localStorage (delete STORAGE_KEY)
        (browser_holding STORAGE_KEY "{not json")
  ∧ unreadable screenshotValidator
      (JSON_stringify (VArr [shot_a; shot_undated])).
Proof.
  pose proof (getFromStorage_self_heals STORAGE_KEY screenshotValidator
                fresh_browser) as (Habsent & _ & _).
  pose proof (getFromStorage_self_heals STORAGE_KEY screenshotValidator
                (browser_holding STORAGE_KEY "{not json"))
    as (_ & Hcorrupt & Hsingle).
  split; [by apply Habsent|].
  destruct (Hcorrupt "{not json") as (Hempty & Hdeleted & _);
    [vm_compute; reflexivity | left; vm_compute; reflexivity |].
  split; [exact Hempty|]. split; [by apply Hdeleted|].
  apply (Hsingle screenshotItem _ [shot_a; shot_undated]).
  - apply JSON_parse_stringify.
  - apply Exists_cons_tl, Exists_cons_hd. vm_compute. reflexivity.
Defined.

(** On a full storage the append returns the new record alone. *)
Lemma saveToStorage_write_failure_witness :
  accepts (host := full_host)
    (healed (host := full_host) STORAGE_KEY
       (screenshotValidator (host := full_host)) fresh_browser)
    STORAGE_KEY
    (shot_a :: stored (host := full_host) STORAGE_KEY
                 (screenshotValidator (host := full_host)) fresh_browser)
    = false
  ∧ saveToStorage (host := full_host) STORAGE_KEY shot_a
      (screenshotValidator (host := full_host)) fresh_browser
    = (Return [shot_a], fresh_browser).
Proof.
  assert (Hfull : accepts (host := full_host)
    (healed (host := full_host) STORAGE_KEY
       (screenshotValidator (host := full_host)) fresh_browser)
    STORAGE_KEY
    (shot_a :: stored (host := full_host) STORAGE_KEY
                 (screenshotValidator (host := full_host)) fresh_browser)
    = false) by (vm_compute; reflexivity).
  split; [exact Hfull|].
  exact (proj1 (saveToStorage_write_failure (host := full_host) STORAGE_KEY
                  shot_a (screenshotValidator (host := full_host)) fresh_browser)
           Hfull).
Defined.

(** A screenshot without a valid date is returned and persisted, also
    under a validator that rejects everything. *)
Lemma saveToStorage_does_not_validate_witness :
  screenshotValidator (VArr [shot_undated]) = None
  ∧ saveToStorage STORAGE_KEY shot_undated screenshotValidator fresh_browser
    = (Return [shot_undated], write STORAGE_KEY [shot_undated] fresh_browser)
  ∧ saveToStorage STORAGE_KEY shot_undated (λ _, None) fresh_browser
    = saveToStorage STORAGE_KEY shot_undated screenshotValidator fresh_browser.
Proof.
  pose proof (saveToStorage_does_not_validate STORAGE_KEY shot_undated
                screenshotValidator fresh_browser) as (_ & Hpersist & Hsame).
  split; [vm_compute; reflexivity|]. split.
  - apply Hpersist. vm_compute. reflexivity.
  - apply Hsame. intros text Hk. vm_compute in Hk. discriminate.
Defined.

(** ** The remote calls against simulated servers *)

(** The upload against a server that answers [OK] with a result, one
    that answers [FAILED], and one that answers with status 500. *)
Lemma uploadImage_contract_witness :
  uploadImage (web := server upload_ok) portrait = Return (Some (VStr "abc123"))
  ∧ uploadImage (web := server upload_failed) portrait
    = Throw (Error "Upload failed: Invalid response")
  ∧ uploadImage (web := server server_error) portrait
    = Throw (Error "Upload failed: 500").
Proof.
  split; [|split].
  - apply (proj1 (uploadImage_contract (web := server upload_ok)
                    portrait upload_ok eq_refl)).
    split; [reflexivity|]. eexists. repeat split; reflexivity.
  - apply (proj1 (proj2 (proj2 (uploadImage_contract
             (web := server upload_failed) portrait upload_failed eq_refl)))
             (VObj [("status", VStr "FAILED")]));
      [reflexivity|reflexivity|discriminate|reflexivity].
  - apply (proj1 (proj2 (uploadImage_contract (web := server server_error)
             portrait server_error eq_refl))).
    reflexivity.
Defined.

(** The detection against a server that answers [succeeded] with output
    34 and prediction time 1.2, and one that answers with status 500. *)
Lemma detectAge_contract_witness :
  AgeDetectionPage.detectAge (web := server detection_ok)
    (Some portrait_data) (Some (VStr "abc123"))
  = Return {| AgeDetectionResult.age := Some (VStr "34");
              AgeDetectionResult.predictTime := Some (VNum (Number 12 (-1)));
              AgeDetectionResult.imageData := portrait_data |}
  ∧ AgeDetectionPage.detectAge (web := server server_error)
      (Some portrait_data) (Some (VStr "abc123"))
    = Throw (Error "Detection failed: 500")
  ∧ AgeDetectionPage.detectAge (web := server detection_not_json)
      (Some portrait_data) (Some (VStr "abc123"))
    = Throw (SyntaxError "Unexpected token < in JSON")
  ∧ AgeDetectionPage.detectAge (web := server detection_null_body)
      (Some portrait_data) (Some (VStr "abc123"))
    = Throw (TypeError "Cannot read properties of null (reading 'status')")
  ∧ AgeDetectionPage.detectAge (web := server detection_without_metrics)
      (Some portrait_data) (Some (VStr "abc123"))
    = Throw (TypeError
        "Cannot read properties of undefined (reading 'predict_time')").
Proof.
  split; [|split; [|split; [|split]]].
  - apply (proj1 (detectAge_contract (web := server detection_ok)
                    (Some portrait_data) (Some (VStr "abc123")) detection_ok
                    eq_refl)).
    split; [reflexivity|].
    eexists _, (VObj [("predict_time", VNum (Number 12 (-1)))]), portrait_data.
    repeat split; try reflexivity; discriminate.
  - apply (proj1 (proj2 (detectAge_contract (web := server server_error)
                    (Some portrait_data) (Some (VStr "abc123")) server_error
                    eq_refl))).
    reflexivity.
  - pose proof (detectAge_contract (web := server detection_not_json)
                  (Some portrait_data) (Some (VStr "abc123"))
                  detection_not_json eq_refl)
      as (_ & _ & _ & _ & Hrejects & _).
    exact (Hrejects _ eq_refl eq_refl).
  - pose proof (detectAge_contract (web := server detection_null_body)
                  (Some portrait_data) (Some (VStr "abc123"))
                  detection_null_body eq_refl)
      as (_ & _ & _ & _ & _ & Hnull & _).
    exact (Hnull eq_refl eq_refl).
  - pose proof (detectAge_contract (web := server detection_without_metrics)
                  (Some portrait_data) (Some (VStr "abc123"))
                  detection_without_metrics eq_refl)
      as (_ & _ & _ & _ & _ & _ & Hmetrics).
    exact (proj1 (Hmetrics _ eq_refl eq_refl eq_refl eq_refl eq_refl) eq_refl).
Defined.

(** ** The pages against simulated servers *)

(** The storage holds the same three screenshots after a run of either
    page against a failing server. *)
Lemma no_record_without_remote_success_witness :
  (AgeDetectionPage.processImage (web := server server_error)
     (age_page, three_shots)).2.2 = three_shots
  ∧ (AgeDetectionPage.processImage (web := server upload_failed)
       (age_page, three_shots)).2.2 = three_shots
  ∧ (ScreenshotCapture.captureScreenshot (web := server server_error)
       (screenshot_page, three_shots)).2.2 = three_shots.
Proof.
  split; [|split].
  - apply (proj1 (proj1 (no_record_without_remote_success
             (web := server server_error)) age_page three_shots)
             portrait (Error "Upload failed: 500")); reflexivity.
  - apply (proj1 (proj1 (no_record_without_remote_success
             (web := server upload_failed)) age_page three_shots)
             portrait (Error "Upload failed: Invalid response")); reflexivity.
  - apply (proj1 (proj2 (no_record_without_remote_success
             (web := server server_error)) screenshot_page three_shots)
             (Error "API Error: 500 Internal Server Error")); reflexivity.
Defined.

(** End to end: the file is uploaded, the age detected, and the record
    with the detected age, the prediction time and the encoded input
    image is at the head of the age-detection history. *)
Example processImage_end_to_end :
  let after := (AgeDetectionPage.processImage (web := working_server)
                  (age_page, fresh_browser)).2 in
  AgeDetectionPage.history after.1
  = [AgeDetectionHistoryItem "34" (Number 12 (-1)) portrait_data
       "2025-03-02T09:30:00.000Z"]
  ∧ AgeDetectionPage.processingState after.1 = AgeDetectionPage.Success
  ∧ getFromStorage AGE_DETECTION_STORAGE_KEY ageDetectionResultValidator after.2
    = (Return [AgeDetectionHistoryItem "34" (Number 12 (-1)) portrait_data
                 "2025-03-02T09:30:00.000Z"], after.2).
Proof. vm_compute. auto. Qed.

(** End to end: the page is captured, and the record with the address,
    the encoded image and the time of capture is at the head of the
    screenshot history. *)
Example captureScreenshot_end_to_end :
  let after := (ScreenshotCapture.captureScreenshot (web := server upload_ok)
                  (screenshot_page, three_shots)).2 in
  ScreenshotCapture.items after.1
  = [ScreenshotItem "https://example.com" "data:image/jpeg;base64,/9j/4AAQ"
       "2025-03-02T09:30:00.000Z"; shot_c; shot_b; shot_a]
  ∧ ScreenshotCapture.screenshotState after.1 = ScreenshotCapture.Success
  ∧ (getFromStorage STORAGE_KEY screenshotValidator after.2).1
    = Return (ScreenshotCapture.items after.1).
Proof. vm_compute. auto. Qed.

(** ** Where the code departs from the claims *)

(** C2, as stated, fails on the empty string: it is stored text that is
    not parseable as JSON, the read returns the empty sequence, and the
    entry is still there afterwards. *)
Lemma empty_text_is_not_deleted :
  localStorage (browser_holding STORAGE_KEY "") !! STORAGE_KEY = Some ""
  ∧ JSON_parse "" = None
  ∧ getFromStorage STORAGE_KEY screenshotValidator (browser_holding STORAGE_KEY "")
    = (Return [], browser_holding STORAGE_KEY "")
  ∧ localStorage (healed STORAGE_KEY screenshotValidator
                    (browser_holding STORAGE_KEY "")) !! STORAGE_KEY
    ≠ None.
Proof. repeat split; try (vm_compute; reflexivity). vm_compute. discriminate. Qed.

(** C5, as stated, fails in both directions: an answer whose [error]
    field is the empty string, neither absent nor [null], succeeds; an
    answer with a success status, [status] [succeeded] and a [null]
    error fails when it has no [metrics], and also when the page holds
    no image data. *)
Lemma detectAge_departs_from_stated_contract :
  (field (VObj [("status", VStr "succeeded"); ("output", VStr "34");
                ("error", VStr "");
                ("metrics", VObj [("predict_time", VNum (Number 12 (-1)))])])
     "error" = Some (VStr "")
   ∧ AgeDetectionPage.detectAge (web := server detection_empty_error)
       (Some portrait_data) (Some (VStr "abc123"))
     = Return {| AgeDetectionResult.age := Some (VStr "34");
                 AgeDetectionResult.predictTime := Some (VNum (Number 12 (-1)));
                 AgeDetectionResult.imageData := portrait_data |})
  ∧ (ok detection_without_metrics = true
     ∧ AgeDetectionPage.detectAge (web := server detection_without_metrics)
         (Some portrait_data) (Some (VStr "abc123"))
       = Throw (TypeError
           "Cannot read properties of undefined (reading 'predict_time')"))
  ∧ (ok detection_ok = true
     ∧ AgeDetectionPage.detectAge (web := server detection_ok)
         None (Some (VStr "abc123"))
       = Throw (Error "Image data is missing")).
Proof. repeat split; vm_compute; reflexivity. Qed.

(** C1, as stated, fails on two kinds of schema-valid records. An
    age-detection record whose prediction time is an infinity passes the
    validator; appended to an empty history it is written with [null]
    for its prediction time, and the read that follows returns nothing
    and removes the entry. A screenshot with a field the schema does not
    name passes the validator; appended, it is read back without that
    field. *)
Lemma roundtrip_loses_valid_records :
  (ageDetectionResultValidator (VArr [age_overflowed]) = Some [age_overflowed]
   ∧ saveToStorage AGE_DETECTION_STORAGE_KEY age_overflowed
       ageDetectionResultValidator fresh_browser
     = (Return [age_overflowed],
        write AGE_DETECTION_STORAGE_KEY [age_overflowed] fresh_browser)
   ∧ getFromStorage AGE_DETECTION_STORAGE_KEY ageDetectionResultValidator
       (write AGE_DETECTION_STORAGE_KEY [age_overflowed] fresh_browser)
     = (Return [], fresh_browser))
  ∧ (screenshotValidator (VArr [shot_tagged]) = Some [shot_a]
     ∧ (saveToStorage STORAGE_KEY shot_tagged screenshotValidator
          fresh_browser).1 = Return [shot_tagged]
     ∧ (getFromStorage STORAGE_KEY screenshotValidator
          (saveToStorage STORAGE_KEY shot_tagged screenshotValidator
             fresh_browser).2).1 = Return [shot_a]
     ∧ shot_a ≠ shot_tagged).
Proof.
  repeat split; try (vm_compute; reflexivity). discriminate.
Qed.

(** The same loss through the page: a detection whose prediction time is
    too large for a double succeeds and is shown, and the history is
    gone at the next read. *)
Example processImage_overflowed_detection :
  let after :=
    (AgeDetectionPage.processImage
       (web := Demo.web (λ req,
          if String.eqb (url req)
               "https://api.magicapi.dev/api/v1/capix/faceswap/upload/"
          then Return upload_ok else Return detection_overflowed))
       (age_page, two_histories)).2 in
  AgeDetectionPage.processingState after.1 = AgeDetectionPage.Success
  ∧ length (AgeDetectionPage.history after.1) = 2%nat
  ∧ (getFromStorage AGE_DETECTION_STORAGE_KEY ageDetectionResultValidator
       after.2).1 = Return [].
Proof. vm_compute. auto. Qed.

(** C3, as stated, fails on a valid stored sequence with a prediction
    time that was written as [1e400]: the key reads as two valid
    records, the removal at index 1 returns the first of them alone, and
    the read that follows returns nothing and removes the entry. *)
Lemma remove_loses_overflowed_history :
  stored AGE_DETECTION_STORAGE_KEY ageDetectionResultValidator
    overflowed_history = [age_overflowed; age_a]
  ∧ (removeFromStorage AGE_DETECTION_STORAGE_KEY 1
       ageDetectionResultValidator overflowed_history).1
    = Return [age_overflowed]
  ∧ getFromStorage AGE_DETECTION_STORAGE_KEY ageDetectionResultValidator
      (removeFromStorage AGE_DETECTION_STORAGE_KEY 1
         ageDetectionResultValidator overflowed_history).2
    = (Return [],
       with_localStorage (delete AGE_DETECTION_STORAGE_KEY)
         (removeFromStorage AGE_DETECTION_STORAGE_KEY 1
            ageDetectionResultValidator overflowed_history).2).
Proof. repeat split; vm_compute; reflexivity. Qed.

(** C9 fails on negative indices. With three records stored, removal at
    index -1 stores and returns five records, the first two of them
    twice; removal at index -2 drops the record at index 1. *)
Lemma remove_negative_index_corrupts :
  stored STORAGE_KEY screenshotValidator three_shots = [shot_c; shot_b; shot_a]
  ∧ removeFromStorage STORAGE_KEY (-1) screenshotValidator three_shots
    = (Return [shot_c; shot_b; shot_c; shot_b; shot_a],
       write STORAGE_KEY [shot_c; shot_b; shot_c; shot_b; shot_a] three_shots)
  ∧ stored STORAGE_KEY screenshotValidator
      (removeFromStorage STORAGE_KEY (-1) screenshotValidator three_shots).2
    = [shot_c; shot_b; shot_c; shot_b; shot_a]
  ∧ (removeFromStorage STORAGE_KEY (-2) screenshotValidator three_shots).1
    = Return [shot_c; shot_a].
Proof. repeat split; vm_compute; reflexivity. Qed.

(** ** The further properties on concrete states *)

(** Removing a screenshot leaves the age-detection history as it was. *)
Lemma store_operations_keep_other_keys_witness :
  AGE_DETECTION_STORAGE_KEY ≠ STORAGE_KEY
  ∧ stored AGE_DETECTION_STORAGE_KEY ageDetectionResultValidator
      (removeFromStorage STORAGE_KEY 0 screenshotValidator two_histories).2
    = stored AGE_DETECTION_STORAGE_KEY ageDetectionResultValidator
        two_histories.
Proof.
  assert (Hne : AGE_DETECTION_STORAGE_KEY ≠ STORAGE_KEY) by discriminate.
  split; [exact Hne|].
  exact (proj2 (proj2 (proj2 (store_operations_keep_other_keys
           STORAGE_KEY AGE_DETECTION_STORAGE_KEY screenshotValidator
           shot_a 0 two_histories Hne) ageDetectionResultValidator))).
Defined.

(** A read of three valid screenshots returns them and changes nothing. *)
Lemma getFromStorage_idempotent_witness :
  stored STORAGE_KEY screenshotValidator three_shots = [shot_c; shot_b; shot_a]
  ∧ healed STORAGE_KEY screenshotValidator three_shots = three_shots.
Proof.
  apply (proj2 (proj2 (getFromStorage_idempotent STORAGE_KEY
           screenshotValidator three_shots))
           (JSON_stringify (VArr [shot_c; shot_b; shot_a]))
           (VArr [shot_c; shot_b; shot_a]) [shot_c; shot_b; shot_a]);
    vm_compute; reflexivity.
Defined.

(** With a full storage the removal at index 1 removes nothing. *)
Lemma removeFromStorage_write_failure_witness :
  removeFromStorage (host := full_host) STORAGE_KEY 1
    (screenshotValidator (host := full_host)) three_shots
  = (Return [shot_c; shot_b; shot_a], three_shots).
Proof.
  assert (Hfull : accepts (host := full_host)
            (healed (host := full_host) STORAGE_KEY
               (screenshotValidator (host := full_host)) three_shots)
            STORAGE_KEY
            (slice (stored (host := full_host) STORAGE_KEY
                      (screenshotValidator (host := full_host)) three_shots)
               0 1
             ++ slice_from (stored (host := full_host) STORAGE_KEY
                      (screenshotValidator (host := full_host)) three_shots)
                  (1 + 1)) = false)
    by (vm_compute; reflexivity).
  exact (proj1 (removeFromStorage_write_failure (host := full_host)
                  STORAGE_KEY 1 (screenshotValidator (host := full_host))
                  three_shots Hfull)).
Defined.

(** Removal at the indices 7, -7, -3 and -1 with three records stored. *)
Lemma removeFromStorage_outside_range_witness :
  (removeFromStorage STORAGE_KEY 7 screenshotValidator three_shots).1
  = Return [shot_c; shot_b; shot_a]
  ∧ (removeFromStorage STORAGE_KEY (-7) screenshotValidator three_shots).1
    = Return [shot_c; shot_b; shot_a]
  ∧ (removeFromStorage STORAGE_KEY (-3) screenshotValidator three_shots).1
    = Return [shot_b; shot_a]
  ∧ (removeFromStorage STORAGE_KEY (-1) screenshotValidator three_shots).1
    = Return [shot_c; shot_b; shot_c; shot_b; shot_a].
Proof.
  split; [|split; [|split]].
  - rewrite (proj1 (removeFromStorage_outside_range STORAGE_KEY 7
                      screenshotValidator three_shots));
      [|vm_compute; discriminate|]; vm_compute; reflexivity.
  - rewrite (proj1 (proj2 (removeFromStorage_outside_range STORAGE_KEY (-7)
                      screenshotValidator three_shots)));
      vm_compute; reflexivity.
  - rewrite (proj1 (proj2 (proj2 (removeFromStorage_outside_range STORAGE_KEY
                      (-3) screenshotValidator three_shots))));
      [|vm_compute; split; [discriminate|reflexivity]|];
      vm_compute; reflexivity.
  - rewrite (proj2 (proj2 (proj2 (removeFromStorage_outside_range STORAGE_KEY
                      (-1) screenshotValidator three_shots))));
      vm_compute; reflexivity.
Defined.

(** A fourth screenshot appended to the three and removed again. *)
Lemma append_then_remove_head_witness :
  (removeFromStorage STORAGE_KEY 0 screenshotValidator
     (saveToStorage STORAGE_KEY shot_a screenshotValidator three_shots).2).1
  = Return [shot_c; shot_b; shot_a].
Proof.
  pose proof (append_then_remove_head screenshotItem screenshotItem_stable
                STORAGE_KEY shot_a three_shots) as H.
  assert (Hr : conforms screenshotItem shot_a) by reflexivity.
  assert (Hacc1 : accepts (healed STORAGE_KEY screenshotValidator three_shots)
            STORAGE_KEY
            (shot_a :: stored STORAGE_KEY screenshotValidator three_shots)
            = true) by reflexivity.
  assert (Hacc2 : accepts
            (saveToStorage STORAGE_KEY shot_a screenshotValidator
               three_shots).2
            STORAGE_KEY (stored STORAGE_KEY screenshotValidator three_shots)
            = true) by reflexivity.
  assert (Hfinite : finite shot_a) by reflexivity.
  assert (Hstored : Forall finite
            (stored STORAGE_KEY screenshotValidator three_shots))
    by (repeat constructor).
  unfold screenshotValidator.
  rewrite (proj1 (H Hr Hfinite Hstored Hacc1 Hacc2)).
  vm_compute. reflexivity.
Defined.

(** A screenshot appended over text that is not JSON. *)
Lemma saveToStorage_replaces_unreadable_witness :
  (saveToStorage STORAGE_KEY shot_a screenshotValidator
     (browser_holding STORAGE_KEY "{not json")).1 = Return [shot_a]
  ∧ stored STORAGE_KEY screenshotValidator
      (saveToStorage STORAGE_KEY shot_a screenshotValidator
         (browser_holding STORAGE_KEY "{not json")).2 = [shot_a].
Proof.
  pose proof (saveToStorage_replaces_unreadable screenshotItem STORAGE_KEY
                shot_a "{not json" (browser_holding STORAGE_KEY "{not json"))
    as H.
  assert (Hk : localStorage (browser_holding STORAGE_KEY "{not json")
               !! STORAGE_KEY = Some "{not json") by reflexivity.
  assert (Hbad : unreadable screenshotValidator "{not json")
    by (left; reflexivity).
  assert (Hr : conforms screenshotItem shot_a) by reflexivity.
  assert (Hacc : accepts
            (healed STORAGE_KEY screenshotValidator
               (browser_holding STORAGE_KEY "{not json"))
            STORAGE_KEY [shot_a] = true) by reflexivity.
  assert (Hfinite : finite shot_a) by reflexivity.
  destruct (H Hk Hbad Hr Hfinite Hacc) as (Hret & _ & Hread).
  split; [exact Hret|]. unfold stored, screenshotValidator.
  rewrite Hread. reflexivity.
Defined.

(** The three screenshots, read through the age-detection validator. *)
Lemma record_kinds_disjoint_witness :
  screenshotItem (Some shot_a) = Some shot_a
  ∧ ageDetectionItem (Some shot_a) = None
  ∧ ageDetectionResultValidator (VArr [shot_c; shot_b; shot_a]) = None.
Proof.
  assert (Hs : screenshotItem (Some shot_a) = Some shot_a) by reflexivity.
  assert (Hv : screenshotValidator (VArr [shot_c; shot_b; shot_a])
               = Some [shot_c; shot_b; shot_a]) by reflexivity.
  split; [exact Hs|]. split.
  - exact (proj1 record_kinds_disjoint (Some shot_a) shot_a Hs).
  - exact (proj1 (proj2 (proj2 record_kinds_disjoint))
             (VArr [shot_c; shot_b; shot_a]) shot_c [shot_b; shot_a] Hv).
Defined.

(** The record of a detection conforms; the record of a capture whose
    URL has no scheme does not. *)
Lemma new_records_conform_witness :
  conforms ageDetectionItem
    (AgeDetectionPage.historyItem (detected "34") "2025-03-02T09:30:00.000Z")
  ∧ ¬ conforms screenshotItem
        (object_literal [("input", Some (VStr "example.com"));
                         ("imageData", Some (VStr portrait_data));
                         ("createdAt", Some (VStr "2025-03-02T09:30:00.000Z"))]).
Proof.
  pose proof (new_records_conform (detected "34") "example.com" portrait_data
                "2025-03-02T09:30:00.000Z") as [Hage Hshot].
  split.
  - apply (proj2 Hage). split; [by eexists|]. split; [by eexists|reflexivity].
  - intros Hc. apply (proj1 Hshot) in Hc. destruct Hc as [Hu _].
    vm_compute in Hu. discriminate.
Defined.

(** A capture whose image the reader cannot read. *)
Lemma captureScreenshot_unreadable_image_witness :
  ScreenshotCapture.error
    (ScreenshotCapture.captureScreenshot (web := failing_reader)
       (screenshot_page, three_shots)).2.1
  = Some "Unknown error occurred"
  ∧ (ScreenshotCapture.captureScreenshot (web := failing_reader)
       (screenshot_page, three_shots)).2.2 = three_shots.
Proof.
  pose proof (captureScreenshot_unreadable_image (web := failing_reader)
                screenshot_page three_shots upload_ok
                {| blob_type := "image/jpeg"; blob_bytes := "/9j/4AAQ" |})
    as H.
  assert (Hurl : ScreenshotCapture.isValidUrl (web := failing_reader)
                   screenshot_page = true) by reflexivity.
  assert (Hkey : trim (Web := failing_reader)
                   (ScreenshotCapture.apiKey screenshot_page) ≠ "")
    by discriminate.
  destruct (H Hurl Hkey eq_refl eq_refl eq_refl eq_refl) as (_ & He & _ & Hb).
  split; [exact He|exact Hb].
Defined.

(** The upload works and the detection is down: the page keeps the
    upload reference, and the next run asks for the detection only. *)
Lemma processImage_reuses_upload_witness :
  AgeDetectionPage.uploadedImageUrl
    (AgeDetectionPage.processImage (web := detection_down)
       (age_page, fresh_browser)).2.1 = Some (VStr "abc123")
  ∧ remote_detection (web := detection_down)
      (AgeDetectionPage.processImage (web := detection_down)
         (age_page, fresh_browser)).2.1 portrait
    = AgeDetectionPage.detectAge (web := detection_down)
        (Some portrait_data) (Some (VStr "abc123")).
Proof.
  pose proof (processImage_reuses_upload (web := detection_down)
                age_page fresh_browser portrait (Some (VStr "abc123"))
                (Error "Detection failed: 500")
                eq_refl eq_refl eq_refl eq_refl eq_refl) as (Hu & _ & Hnext).
  split; [exact Hu|exact (Hnext portrait)].
Defined.

(** Choosing the portrait, which is read; choosing the landscape on
    the page that holds the portrait, which is not read: the next run
    would upload the landscape and detect with the data of the
    portrait. *)
Lemma handleFileChange_then_processImage_witness :
  AgeDetectionPage.imageData
    (AgeDetectionPage.handleFileChange (web := working_server) [portrait]
       (age_page, fresh_browser)).2.1 = Some portrait_data
  ∧ AgeDetectionPage.error
      (AgeDetectionPage.handleFileChange (web := failing_reader) [landscape]
         (age_page, fresh_browser)).2.1 = Some "Failed to process image"
  ∧ remote_detection (web := failing_reader)
      (AgeDetectionPage.handleFileChange (web := failing_reader) [landscape]
         (age_page, fresh_browser)).2.1 landscape
    = (imageUrl ← uploadImage (web := failing_reader) landscape;
       AgeDetectionPage.detectAge (web := failing_reader)
         (Some portrait_data) imageUrl).
Proof.
  split.
  - pose proof (handleFileChange_then_processImage (web := working_server)
                  age_page fresh_browser portrait [])
      as (_ & _ & _ & _ & _ & Hread & _).
    exact (proj1 (Hread portrait_data eq_refl)).
  - pose proof (handleFileChange_then_processImage (web := failing_reader)
                  age_page fresh_browser landscape [])
      as (_ & _ & _ & _ & _ & _ & Hfail).
    destruct (Hfail eq_refl) as (Herror & _ & _ & _ & _ & Hfresh).
    split; [exact Herror|exact (Hfresh eq_refl)].
Defined.


(** A detection on an empty history: shown and stored alike. *)
Lemma processImage_success_in_sync_witness :
  AgeDetectionPage.history
    (AgeDetectionPage.processImage (web := working_server)
       (age_page, fresh_browser)).2.1
  = [AgeDetectionHistoryItem "34" (Number 12 (-1)) portrait_data
       "2025-03-02T09:30:00.000Z"]
  ∧ (getFromStorage AGE_DETECTION_STORAGE_KEY ageDetectionResultValidator
       (AgeDetectionPage.processImage (web := working_server)
          (age_page, fresh_browser)).2.2).1
    = Return [AgeDetectionHistoryItem "34" (Number 12 (-1)) portrait_data
                "2025-03-02T09:30:00.000Z"].
Proof.
  pose proof (processImage_success_in_sync (web := working_server)
                age_page fresh_browser portrait (detected "34") "34"
                (Number 12 (-1)) eq_refl eq_refl eq_refl eq_refl eq_refl
                eq_refl eq_refl (Forall_nil_2 _) eq_refl)
    as (Hh & _ & Hread).
  split; [exact Hh|]. rewrite Hread. reflexivity.
Defined.

(** A capture on top of three screenshots: shown and stored alike. *)
Lemma captureScreenshot_success_in_sync_witness :
  ScreenshotCapture.items
    (ScreenshotCapture.captureScreenshot (web := server upload_ok)
       (screenshot_page, three_shots)).2.1
  = [ScreenshotItem "https://example.com" "data:image/jpeg;base64,/9j/4AAQ"
       "2025-03-02T09:30:00.000Z"; shot_c; shot_b; shot_a]
  ∧ stored STORAGE_KEY screenshotValidator
      (ScreenshotCapture.captureScreenshot (web := server upload_ok)
         (screenshot_page, three_shots)).2.2
    = [ScreenshotItem "https://example.com" "data:image/jpeg;base64,/9j/4AAQ"
         "2025-03-02T09:30:00.000Z"; shot_c; shot_b; shot_a].
Proof.
  assert (Hkey : trim (Web := server upload_ok)
                   (ScreenshotCapture.apiKey screenshot_page) ≠ "")
    by discriminate.
  pose proof (captureScreenshot_success_in_sync (web := server upload_ok)
                screenshot_page three_shots "data:image/jpeg;base64,/9j/4AAQ"
                eq_refl Hkey eq_refl eq_refl eq_refl eq_refl) as (Hi & Hread).
  split; [exact Hi|]. unfold stored. rewrite Hread. reflexivity.
Defined.

(** Three screenshots out of order are shown most recent first. *)
Lemma sorted_display_is_ordered_witness :
  Forall (dated (display := Demo.display))
    (ScreenshotCapture.items screenshot_page_shuffled)
  ∧ ScreenshotCapture.sortedItems (display := Demo.display)
      screenshot_page_shuffled = [shot_c; shot_b; shot_a]
  ∧ StronglySorted (not_older (display := Demo.display))
      [shot_c; shot_b; shot_a].
Proof.
  assert (Hd : Forall (dated (display := Demo.display))
                 (ScreenshotCapture.items screenshot_page_shuffled))
    by (repeat constructor; by eexists).
  split; [exact Hd|]. split; [reflexivity|].
  exact (proj2 (proj2 (sorted_display_is_ordered (display := Demo.display))
                  screenshot_page_shuffled) Hd).
Defined.

(** Three screenshots stored most recent first: the delete button of
    the second entry shown removes that entry. *)
Lemma delete_removes_displayed_record_witness :
  ScreenshotCapture.sortedItems (display := Demo.display) screenshot_page
  = [shot_c; shot_b; shot_a]
  ∧ ScreenshotCapture.sortedItems (display := Demo.display)
      (ScreenshotCapture.deleteScreenshot 1 (screenshot_page, three_shots)).2.1
    = [shot_c; shot_a].
Proof.
  assert (Hi : 0 ≤ 1) by lia.
  assert (Hd : Forall (dated (display := Demo.display))
                 (ScreenshotCapture.items screenshot_page))
    by (repeat constructor; by eexists).
  assert (Ho : StronglySorted (not_older (display := Demo.display))
                 (ScreenshotCapture.items screenshot_page))
    by (repeat constructor; vm_compute; discriminate).
  pose proof (proj2 (delete_removes_displayed_record
                       (display := Demo.display) 1 Hi)
                screenshot_page three_shots eq_refl Hd Ho eq_refl)
    as [Hshown Hafter].
  split; [exact Hshown|]. rewrite Hafter, Hshown. reflexivity.
Defined.

(** The ages 30, 34 and 49 have the same label. *)
Lemma ageDescription_bands_witness :
  AgeDetectionPage.ageDescription (display := Demo.display)
    (Some (detected "34 years"))
  = AgeDetectionPage.ageDescription (display := Demo.display)
      (Some (detected "30"))
  ∧ AgeDetectionPage.ageDescription (display := Demo.display)
      (Some (detected "30")) ≠ "".
Proof.
  split.
  - apply (proj2 (ageDescription_bands (display := Demo.display) None)
             (detected "30") (detected "49") (detected "34 years") 30 49 34);
      try reflexivity. lia.
  - apply (proj1 (ageDescription_bands (display := Demo.display)
                    (Some (detected "30")))).
    exists (detected "30"), 30. repeat split; reflexivity.
Defined.

(** A long text that is not a URL, and a URL with a path. *)
Lemma formatUrl_bounds_witness :
  ScreenshotCapture.formatUrl (display := Demo.display)
    "see the page about the rocq prover"
  = "see the page about the rocq pr..."
  ∧ (String.length
       (ScreenshotCapture.formatUrl (display := Demo.display)
          "see the page about the rocq prover") ≤ 33)%nat
  ∧ String.substring 0 9
      (ScreenshotCapture.formatUrl (display := Demo.display)
         "http://localhost:3000/page") = "localhost".
Proof.
  split; [reflexivity|]. split.
  - exact (proj1 (proj1 (formatUrl_bounds (display := Demo.display)
                           "see the page about the rocq prover") eq_refl)).
  - exact (proj2 (proj2 (formatUrl_bounds (display := Demo.display)
                           "http://localhost:3000/page")
                    "localhost" "/page" eq_refl)).
Defined.

(** The records read from the two example histories. *)
Lemma read_records_are_typed_witness :
  Forall (λ r, ∃ input imageData createdAt,
            r = ScreenshotItem input imageData createdAt
            ∧ is_url input = true ∧ is_datetime createdAt = true)
    [shot_c; shot_b; shot_a]
  ∧ Forall (λ r, ∃ age predictTime imageData createdAt,
              r = AgeDetectionHistoryItem age predictTime imageData createdAt
              ∧ is_datetime createdAt = true)
      [age_a].
Proof.
  split.
  - exact (proj1 (read_records_are_typed STORAGE_KEY three_shots)).
  - exact (proj2 (read_records_are_typed AGE_DETECTION_STORAGE_KEY
                    two_histories)).
Defined.

(** A run that succeeds, and a run against a server that is down. *)
Lemma processImage_outcome_witness :
  (AgeDetectionPage.processingState
     (AgeDetectionPage.processImage (web := working_server)
        (age_page, fresh_browser)).2.1 = AgeDetectionPage.Success
   ∧ AgeDetectionPage.result
       (AgeDetectionPage.processImage (web := working_server)
          (age_page, fresh_browser)).2.1 = Some (detected "34"))
  ∧ (AgeDetectionPage.processingState
       (AgeDetectionPage.processImage (web := server server_error)
          (age_page, fresh_browser)).2.1 = AgeDetectionPage.Failed
     ∧ AgeDetectionPage.error
         (AgeDetectionPage.processImage (web := server server_error)
            (age_page, fresh_browser)).2.1 = Some "Upload failed: 500").
Proof.
  split.
  - pose proof (processImage_outcome (web := working_server)
                  age_page fresh_browser) as (_ & _ & _ & Hs & Hr & _).
    split; [exact Hs|exact Hr].
  - pose proof (processImage_outcome (web := server server_error)
                  age_page fresh_browser) as (_ & _ & _ & Hs & He & _).
    split; [exact Hs|exact He].
Defined.

(** A capture that succeeds, and a capture against a server that is
    down. *)
Lemma captureScreenshot_outcome_witness :
  (ScreenshotCapture.screenshotState
     (ScreenshotCapture.captureScreenshot (web := server upload_ok)
        (screenshot_page, three_shots)).2.1 = ScreenshotCapture.Success
   ∧ ScreenshotCapture.currentImageData
       (ScreenshotCapture.captureScreenshot (web := server upload_ok)
          (screenshot_page, three_shots)).2.1
     = Some "data:image/jpeg;base64,/9j/4AAQ")
  ∧ (ScreenshotCapture.screenshotState
       (ScreenshotCapture.captureScreenshot (web := server server_error)
          (screenshot_page, three_shots)).2.1 = ScreenshotCapture.Failed
     ∧ ScreenshotCapture.error
         (ScreenshotCapture.captureScreenshot (web := server server_error)
            (screenshot_page, three_shots)).2.1
       = Some "API Error: 500 Internal Server Error").
Proof.
  split.
  - pose proof (captureScreenshot_outcome (web := server upload_ok)
                  screenshot_page three_shots) as (_ & _ & _ & _ & Hs & Hi & _).
    split; [exact Hs|exact Hi].
  - pose proof (captureScreenshot_outcome (web := server server_error)
                  screenshot_page three_shots) as (_ & _ & _ & _ & Hs & He & _).
    split; [exact Hs|exact He].
Defined.

(** Resetting the two example pages. *)
Lemma reset_keeps_history_witness :
  (AgeDetectionPage.resetState (age_page, two_histories)).2.2 = two_histories
  ∧ ScreenshotCapture.items
      (ScreenshotCapture.resetForm (screenshot_page, three_shots)).2.1
    = [shot_c; shot_b; shot_a].
Proof.
  split.
  - exact (proj1 (proj1 (reset_keeps_history (web := working_server))
                    age_page two_histories)).
  - exact (proj1 (proj2 (proj2 (reset_keeps_history (web := working_server))
                           screenshot_page three_shots))).
Defined.

(** After the delete button of the second screenshot, after one with
    an index of -1, and after the delete button of the one stored
    age-detection record, page and storage agree. *)
Lemma delete_leaves_page_in_sync_witness :
  stored STORAGE_KEY screenshotValidator
    (ScreenshotCapture.deleteScreenshot 1 (screenshot_page, three_shots)).2.2
  = ScreenshotCapture.items
      (ScreenshotCapture.deleteScreenshot 1 (screenshot_page, three_shots)).2.1
  ∧ stored STORAGE_KEY screenshotValidator
      (ScreenshotCapture.deleteScreenshot (-1)
         (screenshot_page, three_shots)).2.2
    = ScreenshotCapture.items
        (ScreenshotCapture.deleteScreenshot (-1)
           (screenshot_page, three_shots)).2.1
  ∧ stored AGE_DETECTION_STORAGE_KEY ageDetectionResultValidator
      (AgeDetectionPage.deleteHistoryItem 0 (age_page, two_histories)).2.2
    = AgeDetectionPage.history
        (AgeDetectionPage.deleteHistoryItem 0 (age_page, two_histories)).2.1.
Proof.
  split; [|split].
  - unfold stored.
    rewrite (proj2 (proj2 (delete_leaves_page_in_sync 1)
                      screenshot_page three_shots)).
    reflexivity.
  - unfold stored.
    rewrite (proj2 (proj2 (delete_leaves_page_in_sync (-1))
                      screenshot_page three_shots)).
    reflexivity.
  - assert (Hfinite : Forall finite
              (stored AGE_DETECTION_STORAGE_KEY ageDetectionResultValidator
                 two_histories)) by (repeat constructor).
    unfold stored at 1.
    rewrite (proj2 (proj1 (delete_leaves_page_in_sync 0)
                      age_page two_histories) Hfinite).
    reflexivity.
Defined.

(** The two pages mounted on the example histories. *)
Lemma mount_reads_history_witness :
  (∃ s, AgeDetectionPage.initialState two_histories = (Return s, two_histories)
        ∧ AgeDetectionPage.history s = [age_a])
  ∧ ScreenshotCapture.items
      (ScreenshotCapture.mountEffect
         (ScreenshotCapture.initialState, two_histories)).2.1
    = [shot_c; shot_b; shot_a].
Proof.
  pose proof (mount_reads_history two_histories) as [Hage Hshot].
  split.
  - destruct Hage as (s & Hrun & Hh & _). exists s.
    split; [exact Hrun|exact Hh].
  - destruct Hshot as (_ & _ & Hi & _). exact Hi.
Defined.
